(** * Verification of the eviqo Node.js client: frame codec, hash and session

    Shallow embedding of [src/nodejs/src/utils/protocol.ts],
    [src/nodejs/src/utils/hash.ts] and [src/nodejs/src/client.ts].

    Conventions.
    - A JavaScript string is a list of UTF-16 code units, each a [Z].
    - A [Buffer] is a list of bytes, each a [Z] in [0, 255].
    - A JavaScript value is [jsval]; a number is kept as the literal it
      was written or parsed from, and where the code observes it ([String],
      [JSON.stringify], [Map] keys) it is read as the IEEE-754 double the
      literal denotes (no arithmetic is performed on numbers by the code
      modelled here).
    - Logging has no observable effect and is omitted. *)

From Stdlib Require Import String Ascii ZArith List Bool Lia.
Import ListNotations.
Open Scope Z_scope.

(** ** JavaScript strings and buffers *)

Definition jstr := list Z.
Definition buffer := list Z.

(** A string literal of the source, as code units (ASCII only). *)
Definition js (s : string) : jstr :=
  map (fun a => Z.of_nat (nat_of_ascii a)) (list_ascii_of_string s).

Definition is_byte (b : Z) : bool := (0 <=? b) && (b <=? 255).

(** [Buffer.prototype.toString('hex')]: two lowercase hex digits per byte. *)
Definition hex_digit (d : Z) : Z := if d <? 10 then 48 + d else 87 + d.
Definition to_hex (b : buffer) : jstr :=
  flat_map (fun x => [hex_digit (Z.shiftr x 4); hex_digit (Z.land x 15)]) b.

(** [toString('binary')] (latin1): one code unit per byte. *)
Definition latin1_decode (b : buffer) : jstr := b.

(** [toString('ascii')]: the high bit of each byte is cleared, then latin1. *)
Definition ascii_decode (b : buffer) : jstr := map (fun x => Z.land x 0x7F) b.

(** Decimal rendering of a non-negative integer (used for [length] fields). *)
Fixpoint dec_fuel (fuel : nat) (n : Z) : jstr :=
  match fuel with
  | O => [48 + n mod 10]
  | S f => if n <? 10 then [48 + n] else dec_fuel f (n / 10) ++ [48 + n mod 10]
  end.
Definition dec (n : Z) : jstr := dec_fuel (Z.to_nat (Z.log2 (n + 1)) + 1) n.

(** *** UTF-8 encoding: [Buffer.from(str, 'utf-8')] *)

Definition utf8_cp (c : Z) : list Z :=
  if c <? 0x80 then [c]
  else if c <? 0x800 then
    [Z.lor 0xC0 (Z.shiftr c 6); Z.lor 0x80 (Z.land c 0x3F)]
  else if c <? 0x10000 then
    [Z.lor 0xE0 (Z.shiftr c 12); Z.lor 0x80 (Z.land (Z.shiftr c 6) 0x3F);
     Z.lor 0x80 (Z.land c 0x3F)]
  else
    [Z.lor 0xF0 (Z.shiftr c 18); Z.lor 0x80 (Z.land (Z.shiftr c 12) 0x3F);
     Z.lor 0x80 (Z.land (Z.shiftr c 6) 0x3F); Z.lor 0x80 (Z.land c 0x3F)].

Definition is_high_surrogate (u : Z) : bool := (0xD800 <=? u) && (u <=? 0xDBFF).
Definition is_low_surrogate (u : Z) : bool := (0xDC00 <=? u) && (u <=? 0xDFFF).

(** Surrogate pairs are combined; a lone surrogate becomes U+FFFD. *)
Fixpoint utf8_encode (s : jstr) : buffer :=
  match s with
  | [] => []
  | u :: t =>
      if is_high_surrogate u then
        match t with
        | v :: t' =>
            if is_low_surrogate v then
              utf8_cp (0x10000 + Z.shiftl (u - 0xD800) 10 + (v - 0xDC00))
              ++ utf8_encode t'
            else utf8_cp 0xFFFD ++ utf8_encode t
        | [] => utf8_cp 0xFFFD
        end
      else if is_low_surrogate u then utf8_cp 0xFFFD ++ utf8_encode t
      else utf8_cp u ++ utf8_encode t
  end.

(** *** UTF-8 decoding: [toString('utf-8')], invalid input -> U+FFFD
    (maximal subpart replacement). *)

Definition in_range (lo hi b : Z) : bool := (lo <=? b) && (b <=? hi).

(** Code units of a code point. *)
Definition cp_units (c : Z) : jstr :=
  if c <? 0x10000 then [c]
  else [0xD800 + Z.shiftr (c - 0x10000) 10; 0xDC00 + Z.land (c - 0x10000) 0x3FF].

(** One decoding step on the lead byte [b1] and the rest [t]: the code units
    produced and the bytes left. *)
Definition utf8_step (b1 : Z) (t : buffer) : jstr * buffer :=
  if b1 <? 0x80 then ([b1], t)
  else if in_range 0xC2 0xDF b1 then
    match t with
    | b2 :: t2 =>
        if in_range 0x80 0xBF b2
        then (cp_units (Z.lor (Z.shiftl (Z.land b1 0x1F) 6) (Z.land b2 0x3F)), t2)
        else ([0xFFFD], t)
    | [] => ([0xFFFD], t)
    end
  else if in_range 0xE0 0xEF b1 then
    let lo := if b1 =? 0xE0 then 0xA0 else 0x80 in
    let hi := if b1 =? 0xED then 0x9F else 0xBF in
    match t with
    | b2 :: t2 =>
        if in_range lo hi b2 then
          match t2 with
          | b3 :: t3 =>
              if in_range 0x80 0xBF b3
              then (cp_units (Z.lor (Z.shiftl (Z.land b1 0x0F) 12)
                     (Z.lor (Z.shiftl (Z.land b2 0x3F) 6) (Z.land b3 0x3F))), t3)
              else ([0xFFFD], t2)
          | [] => ([0xFFFD], t2)
          end
        else ([0xFFFD], t)
    | [] => ([0xFFFD], t)
    end
  else if in_range 0xF0 0xF4 b1 then
    let lo := if b1 =? 0xF0 then 0x90 else 0x80 in
    let hi := if b1 =? 0xF4 then 0x8F else 0xBF in
    match t with
    | b2 :: t2 =>
        if in_range lo hi b2 then
          match t2 with
          | b3 :: t3 =>
              if in_range 0x80 0xBF b3 then
                match t3 with
                | b4 :: t4 =>
                    if in_range 0x80 0xBF b4
                    then (cp_units (Z.lor (Z.shiftl (Z.land b1 0x07) 18)
                           (Z.lor (Z.shiftl (Z.land b2 0x3F) 12)
                           (Z.lor (Z.shiftl (Z.land b3 0x3F) 6) (Z.land b4 0x3F)))), t4)
                    else ([0xFFFD], t3)
                | [] => ([0xFFFD], t3)
                end
              else ([0xFFFD], t2)
          | [] => ([0xFFFD], t2)
          end
        else ([0xFFFD], t)
    | [] => ([0xFFFD], t)
    end
  else ([0xFFFD], t).

Fixpoint utf8_decode_fuel (fuel : nat) (b : buffer) : jstr :=
  match fuel, b with
  | _, [] => []
  | O, _ => []
  | S f, b1 :: t => let (u, r) := utf8_step b1 t in u ++ utf8_decode_fuel f r
  end.

Definition utf8_decode (b : buffer) : jstr := utf8_decode_fuel (length b) b.

(** [String.prototype.toWellFormed] (ECMAScript 2024): every lone surrogate
    becomes U+FFFD.  It is not called by the code; it states what a UTF-8
    round trip does to a string. *)
Fixpoint toWellFormed (s : jstr) : jstr :=
  match s with
  | [] => []
  | u :: t =>
      if is_high_surrogate u then
        match t with
        | v :: t' =>
            if is_low_surrogate v then u :: v :: toWellFormed t'
            else 0xFFFD :: toWellFormed t
        | [] => [0xFFFD]
        end
      else if is_low_surrogate u then 0xFFFD :: toWellFormed t
      else u :: toWellFormed t
  end.

(** ** JavaScript values *)

#[local] Set Warnings "-register-all".

Inductive jsval : Type :=
| JUndef
| JNull
| JBool (b : bool)
| JNum (lit : jstr)
| JStr (s : jstr)
| JArr (l : list jsval)
| JObj (fields : list (jstr * jsval)).

(** Property read on an object: the last binding of a key wins
    (as [JSON.parse] does for duplicate keys); a missing key is [undefined]. *)
Definition obj_get (fs : list (jstr * jsval)) (k : jstr) : jsval :=
  fold_left (fun acc kv => if list_eq_dec Z.eq_dec (fst kv) k then snd kv else acc)
    fs JUndef.

(** Canonical array index of a property key. *)
Fixpoint digits_val (acc : Z) (s : jstr) : option Z :=
  match s with
  | [] => Some acc
  | c :: t => if in_range 48 57 c then digits_val (acc * 10 + (c - 48)) t else None
  end.
Definition array_index (k : jstr) : option nat :=
  match k with
  | [48] => Some O
  | c :: _ =>
      if in_range 49 57 c then option_map Z.to_nat (digits_val 0 k) else None
  | [] => None
  end.

(** [v[k]] / [v.k]: [None] is the [TypeError] thrown on [null] and
    [undefined]; other prototype properties are not modelled. *)
Definition js_get (v : jsval) (k : jstr) : option jsval :=
  match v with
  | JUndef | JNull => None
  | JObj fs => Some (obj_get fs k)
  | JArr l =>
      Some (match array_index k with
            | Some i => nth i l JUndef
            | None => JUndef
            end)
  | JStr s =>
      Some (match array_index k with
            | Some i => match nth_error s i with Some u => JStr [u] | None => JUndef end
            | None => JUndef
            end)
  | JNum _ | JBool _ => Some JUndef
  end.

(** String iteration yields one string per code point. *)
Fixpoint str_code_points (s : jstr) : list jstr :=
  match s with
  | [] => []
  | u :: t =>
      match t with
      | v :: t' =>
          if is_high_surrogate u && is_low_surrogate v
          then [u; v] :: str_code_points t'
          else [u] :: str_code_points t
      | [] => [[u]]
      end
  end.

(** [for (const x of v)]: arrays and strings are iterable, anything else
    throws a [TypeError] ([None]). *)
Definition js_iter (v : jsval) : option (list jsval) :=
  match v with
  | JArr l => Some l
  | JStr s => Some (map JStr (str_code_points s))
  | _ => None
  end.

(** A string literal in which ['] stands for the double quote character. *)
Definition jsq (s : string) : jstr := map (fun c => if c =? 39 then 34 else c) (js s).

(** ** [JSON.parse] (ECMA-404 grammar, as used by [JSON.parse]) *)

Definition is_ws (c : Z) : bool :=
  (c =? 0x20) || (c =? 0x09) || (c =? 0x0A) || (c =? 0x0D).

Fixpoint skip_ws (s : jstr) : jstr :=
  match s with
  | c :: t => if is_ws c then skip_ws t else s
  | [] => []
  end.

Definition is_digit (c : Z) : bool := in_range 0x30 0x39 c.

Definition hex_val (c : Z) : option Z :=
  if is_digit c then Some (c - 48)
  else if in_range 0x41 0x46 c then Some (c - 55)
  else if in_range 0x61 0x66 c then Some (c - 87)
  else None.

Fixpoint skip_digits (s : jstr) : jstr :=
  match s with
  | c :: t => if is_digit c then skip_digits t else s
  | [] => []
  end.

Definition digits1 (s : jstr) : option jstr :=
  match s with
  | c :: t => if is_digit c then Some (skip_digits t) else None
  | [] => None
  end.

Definition opt_char (ch : Z) (s : jstr) : jstr :=
  match s with
  | c :: t => if c =? ch then t else s
  | [] => s
  end.

Definition p_int (s : jstr) : option jstr :=
  match s with
  | c :: t => if c =? 0x30 then Some t
              else if is_digit c then Some (skip_digits t) else None
  | [] => None
  end.

Definition p_frac (s : jstr) : option jstr :=
  match s with
  | c :: t => if c =? 0x2E then digits1 t else Some s
  | [] => Some s
  end.

Definition p_exp (s : jstr) : option jstr :=
  match s with
  | c :: t =>
      if (c =? 0x65) || (c =? 0x45)
      then digits1 (match t with
                    | d :: u => if (d =? 0x2B) || (d =? 0x2D) then u else t
                    | [] => t
                    end)
      else Some s
  | [] => Some s
  end.

Definition p_number (s : jstr) : option (jsval * jstr) :=
  match p_int (opt_char 0x2D s) with
  | Some r1 =>
      match p_frac r1 with
      | Some r2 =>
          match p_exp r2 with
          | Some r3 => Some (JNum (firstn (length s - length r3)%nat s), r3)
          | None => None
          end
      | None => None
      end
  | None => None
  end.

Definition simple_escape (e : Z) : option Z :=
  if e =? 0x22 then Some 0x22 else if e =? 0x5C then Some 0x5C
  else if e =? 0x2F then Some 0x2F else if e =? 0x62 then Some 0x08
  else if e =? 0x66 then Some 0x0C else if e =? 0x6E then Some 0x0A
  else if e =? 0x72 then Some 0x0D else if e =? 0x74 then Some 0x09
  else None.

(** The characters of a string literal after its opening quote: the
    decoded contents and the input after the closing quote. *)
Fixpoint p_string_body (s : jstr) : option (jstr * jstr) :=
  match s with
  | [] => None
  | c :: t =>
      if c =? 0x22 then Some ([], t)
      else if c =? 0x5C then
        match t with
        | e :: u =>
            match simple_escape e with
            | Some x =>
                match p_string_body u with
                | Some (str, r) => Some (x :: str, r)
                | None => None
                end
            | None =>
                if e =? 0x75 then
                  match u with
                  | h1 :: h2 :: h3 :: h4 :: u' =>
                      match hex_val h1, hex_val h2, hex_val h3, hex_val h4 with
                      | Some a, Some b, Some c', Some d =>
                          match p_string_body u' with
                          | Some (str, r) => Some (a * 4096 + b * 256 + c' * 16 + d :: str, r)
                          | None => None
                          end
                      | _, _, _, _ => None
                      end
                  | _ => None
                  end
                else None
            end
        | [] => None
        end
      else if c <? 0x20 then None
      else
        match p_string_body t with
        | Some (str, r) => Some (c :: str, r)
        | None => None
        end
  end.

Definition p_lit (lit : jstr) (v : jsval) (s : jstr) : option (jsval * jstr) :=
  if list_eq_dec Z.eq_dec (firstn (length lit) s) lit
  then Some (v, skipn (length lit) s) else None.

(** Values, array elements and object members; [n] bounds the recursion
    depth (every call but the first element of an array consumes input). *)
Fixpoint p_value (n : nat) (s : jstr) : option (jsval * jstr) :=
  match n with
  | O => None
  | S n' =>
      match skip_ws s with
      | [] => None
      | c :: t =>
          if c =? 0x7B then
            match skip_ws t with
            | d :: u =>
                if d =? 0x7D then Some (JObj [], u)
                else match p_members n' (d :: u) with
                     | Some (fs, r) => Some (JObj fs, r)
                     | None => None
                     end
            | [] => None
            end
          else if c =? 0x5B then
            match skip_ws t with
            | d :: u =>
                if d =? 0x5D then Some (JArr [], u)
                else match p_elements n' (d :: u) with
                     | Some (l, r) => Some (JArr l, r)
                     | None => None
                     end
            | [] => None
            end
          else if c =? 0x22 then
            match p_string_body t with
            | Some (str, r) => Some (JStr str, r)
            | None => None
            end
          else if c =? 0x74 then p_lit (js "true") (JBool true) (c :: t)
          else if c =? 0x66 then p_lit (js "false") (JBool false) (c :: t)
          else if c =? 0x6E then p_lit (js "null") JNull (c :: t)
          else p_number (c :: t)
      end
  end
with p_elements (n : nat) (s : jstr) : option (list jsval * jstr) :=
  match n with
  | O => None
  | S n' =>
      match p_value n' s with
      | Some (v, r) =>
          match skip_ws r with
          | d :: u =>
              if d =? 0x2C then
                match p_elements n' u with
                | Some (l, r') => Some (v :: l, r')
                | None => None
                end
              else if d =? 0x5D then Some ([v], u) else None
          | [] => None
          end
      | None => None
      end
  end
with p_members (n : nat) (s : jstr) : option (list (jstr * jsval) * jstr) :=
  match n with
  | O => None
  | S n' =>
      match skip_ws s with
      | c :: t =>
          if c =? 0x22 then
            match p_string_body t with
            | Some (k, r) =>
                match skip_ws r with
                | d :: u =>
                    if d =? 0x3A then
                      match p_value n' u with
                      | Some (v, r2) =>
                          match skip_ws r2 with
                          | e :: w =>
                              if e =? 0x2C then
                                match p_members n' w with
                                | Some (fs, r3) => Some ((k, v) :: fs, r3)
                                | None => None
                                end
                              else if e =? 0x7D then Some ([(k, v)], w) else None
                          | [] => None
                          end
                      | None => None
                      end
                    else None
                | [] => None
                end
            | None => None
            end
          else None
      | [] => None
      end
  end.

(** [JSON.parse(s)]: [None] is the [SyntaxError] it throws. *)
Definition JSON_parse (s : jstr) : option jsval :=
  match p_value (2 * length s + 2) s with
  | Some (v, r) => match skip_ws r with [] => Some v | _ => None end
  | None => None
  end.

(** ** Numbers: the IEEE-754 double a JSON number literal denotes *)

(** A double: a finite value [(-1)^neg * m * 2^e] in canonical form (normal:
    [2^52 <= m < 2^53], [-1074 <= e <= 971]; subnormal or zero: [m < 2^52],
    [e = -1074]), or an infinity. *)
Inductive double := Finite (neg : bool) (m e : Z) | Infinite (neg : bool).

(** [a / b] rounded to the nearest integer, ties to even ([0 <= a], [0 < b]). *)
Definition round_half_even (a b : Z) : Z :=
  let q := a / b in
  let r := a mod b in
  if 2 * r <? b then q
  else if b <? 2 * r then q + 1
  else if Z.even q then q else q + 1.

(** The double nearest to [num / den] ([0 <= num], [0 < den]), ties to
    even: RoundMVResult. *)
Definition round_ratio (neg : bool) (num den : Z) : double :=
  if num =? 0 then Finite neg 0 (-1074) else
  let l := Z.log2 num - Z.log2 den in
  let fl := if (if 0 <=? l then den * 2 ^ l <=? num else den <=? num * 2 ^ (- l))
            then l else l - 1 in
  let e := Z.max (fl - 52) (-1074) in
  let m := if 0 <=? e then round_half_even num (den * 2 ^ e)
           else round_half_even (num * 2 ^ (- e)) den in
  let '(m, e) := if m =? 2 ^ 53 then (2 ^ 52, e + 1) else (m, e) in
  if 971 <? e then Infinite neg else Finite neg m e.

(** Number of decimal digits of a positive integer. *)
Definition ndigits (n : Z) : Z := Z.of_nat (length (dec n)).

(** The double nearest to [M * 10^E]; far outside the range of doubles the
    result is an infinity or a zero without computing the power. *)
Definition decimal_double (neg : bool) (M E : Z) : double :=
  if M =? 0 then Finite neg 0 (-1074)
  else if 310 <? ndigits M - 1 + E then Infinite neg
  else if ndigits M + E <? -330 then Finite neg 0 (-1074)
  else if 0 <=? E then round_ratio neg (M * 10 ^ E) 1
  else round_ratio neg M (10 ^ (- E)).

(** Digits read left to right into [acc]; also their count and the rest. *)
Fixpoint scan_digits (s : jstr) (acc cnt : Z) : Z * Z * jstr :=
  match s with
  | c :: t =>
      if in_range 0x30 0x39 c then scan_digits t (acc * 10 + (c - 0x30)) (cnt + 1)
      else (acc, cnt, s)
  | [] => (acc, cnt, [])
  end.

(** The value of a literal of the JSON number grammar
    [-? int (. digits)? ([eE] [+-]? digits)?]. *)
Definition literal_double (lit : jstr) : double :=
  let '(neg, s) := match lit with
                   | c :: t => if c =? 0x2D then (true, t) else (false, lit)
                   | [] => (false, [])
                   end in
  let '(i, _, s1) := scan_digits s 0 0 in
  let '(M, fd, s2) := match s1 with
                      | c :: t => if c =? 0x2E then scan_digits t i 0 else (i, 0, s1)
                      | [] => (i, 0, [])
                      end in
  let ex := match s2 with
            | c :: t =>
                if (c =? 0x65) || (c =? 0x45) then
                  match t with
                  | d :: u =>
                      if d =? 0x2D then - fst (fst (scan_digits u 0 0))
                      else if d =? 0x2B then fst (fst (scan_digits u 0 0))
                      else fst (fst (scan_digits t 0 0))
                  | [] => 0
                  end
                else 0
            | [] => 0
            end in
  decimal_double neg M (ex - fd).

(** [n] with [10^(n-1) <= m * 2^e < 10^n], for [0 < m]. *)
Definition dec_exponent (m e : Z) : Z :=
  if 0 <=? e then ndigits (m * 2 ^ e)
  else if 2 ^ (- e) <=? m then ndigits (m / 2 ^ (- e))
  else ndigits ((m * 10 ^ 330) / 2 ^ (- e)) - 330.

(** Number::toString, step 5: the least [k] and a [k]-digit [s] with
    [s * 10^(n-k)] rounding to the positive double [m * 2^e], the closest
    such [s] when two qualify.  [s] is one of the two [k]-digit neighbours
    of the value; seventeen digits always suffice. *)
Fixpoint shortest (fuel : nat) (k m e n0 : Z) : Z * Z * Z :=
  match fuel with
  | O => (k, 0, n0)
  | S f =>
      let j := n0 - k in
      let X := m * 2 ^ Z.max e 0 * 10 ^ Z.max (- j) 0 in
      let Y := 2 ^ Z.max (- e) 0 * 10 ^ Z.max j 0 in
      let s0 := X / Y in
      let s1 := s0 + 1 in
      let ok s := match decimal_double false s j with
                  | Finite _ m' e' => (m' =? m) && (e' =? e)
                  | Infinite _ => false
                  end in
      let c1 := if s1 =? 10 ^ k then (k, 10 ^ (k - 1), n0 + 1) else (k, s1, n0) in
      match ok s0, ok s1 with
      | true, true =>
          if 2 * X <? (2 * s0 + 1) * Y then (k, s0, n0)
          else if (2 * s0 + 1) * Y <? 2 * X then c1
          else if Z.even s0 then (k, s0, n0) else c1
      | true, false => (k, s0, n0)
      | false, true => c1
      | false, false => shortest f (k + 1) m e n0
      end
  end.

Definition zeros (n : Z) : jstr := repeat 0x30 (Z.to_nat n).

(** Number::toString(x) in radix 10. *)
Definition number_to_string (x : double) : jstr :=
  match x with
  | Infinite false => js "Infinity"
  | Infinite true => js "-Infinity"
  | Finite neg m e =>
      if m =? 0 then js "0" else
      let '(k, s, n) := shortest 17 1 m e (dec_exponent m e) in
      let ds := dec s in
      let body :=
        if (k <=? n) && (n <=? 21) then ds ++ zeros (n - k)
        else if (0 <? n) && (n <=? 21) then
          firstn (Z.to_nat n) ds ++ 0x2E :: skipn (Z.to_nat n) ds
        else if (-6 <? n) && (n <=? 0) then js "0." ++ zeros (- n) ++ ds
        else
          let ex := 0x65 :: (if 0 <=? n - 1 then 0x2B else 0x2D) :: dec (Z.abs (n - 1)) in
          if k =? 1 then ds ++ ex else hd 0 ds :: 0x2E :: tl ds ++ ex in
      if neg then 0x2D :: body else body
  end.

(** [JSON.stringify] of a number: finite numbers as [ToString], the
    infinities as [null]. *)
Definition json_number (lit : jstr) : jstr :=
  match literal_double lit with
  | Infinite _ => js "null"
  | x => number_to_string x
  end.

(** ** [JSON.stringify] *)

Definition hex4 (u : Z) : jstr :=
  [hex_digit (Z.land (Z.shiftr u 12) 15); hex_digit (Z.land (Z.shiftr u 8) 15);
   hex_digit (Z.land (Z.shiftr u 4) 15); hex_digit (Z.land u 15)].

Definition quote_unit (u : Z) : jstr :=
  if u =? 0x22 then [0x5C; 0x22]
  else if u =? 0x5C then [0x5C; 0x5C]
  else if u =? 0x08 then [0x5C; 0x62]
  else if u =? 0x0C then [0x5C; 0x66]
  else if u =? 0x0A then [0x5C; 0x6E]
  else if u =? 0x0D then [0x5C; 0x72]
  else if u =? 0x09 then [0x5C; 0x74]
  else if (u <? 0x20) || is_high_surrogate u || is_low_surrogate u
  then 0x5C :: 0x75 :: hex4 u
  else [u].

(** QuoteJSONString: well-formed surrogate pairs are kept, lone ones escaped. *)
Fixpoint quote_units (s : jstr) : jstr :=
  match s with
  | [] => []
  | u :: t =>
      match t with
      | v :: t' =>
          if is_high_surrogate u && is_low_surrogate v
          then u :: v :: quote_units t'
          else quote_unit u ++ quote_units t
      | [] => quote_unit u
      end
  end.

Definition quote (s : jstr) : jstr := 0x22 :: quote_units s ++ [0x22].

Fixpoint join_comma (l : list jstr) : jstr :=
  match l with
  | [] => []
  | [x] => x
  | x :: r => x ++ 0x2C :: join_comma r
  end.

(** Properties whose value is [undefined] are omitted; in arrays
    [undefined] is written as [null]. *)
Fixpoint stringify (v : jsval) : jstr :=
  match v with
  | JUndef | JNull => js "null"
  | JBool true => js "true"
  | JBool false => js "false"
  | JNum lit => json_number lit
  | JStr s => quote s
  | JArr l =>
      let fix elems (l : list jsval) : list jstr :=
        match l with
        | [] => []
        | x :: r => stringify x :: elems r
        end in
      0x5B :: join_comma (elems l) ++ [0x5D]
  | JObj fs =>
      let fix members (fs : list (jstr * jsval)) : list jstr :=
        match fs with
        | [] => []
        | (_, JUndef) :: r => members r
        | (k, x) :: r => (quote k ++ 0x3A :: stringify x) :: members r
        end in
      0x7B :: join_comma (members fs) ++ [0x7D]
  end.

(** ** Frame codec: [src/nodejs/src/utils/protocol.ts] *)

Module Protocol.

(** [MessageHeader.payloadType]: the five string values the code assigns. *)
Inductive payload_type := widget_update | json | ascii | text | binary.

Record MessageHeader := {
  byte1 : Z;
  byte2 : Z;
  byte3 : Z;
  byte4 : Z;
  hasPayload : bool;
  headerHex : jstr;
  totalLength : Z;
  payloadType : option payload_type
}.

(** [ParsedMessage]: [header = None] is [null]; the payload is a JS value
    ([JNull] for [null]). *)
Record ParsedMessage := {
  header : option MessageHeader;
  payload : jsval
}.

Definition printable_unit (code : Z) : bool :=
  ((0x20 <=? code) && (code <=? 0x7E)) || (code =? 0x0A) || (code =? 0x0D) || (code =? 0x09).

(** [isPrintable] *)
Definition isPrintable (str : jstr) : bool := forallb printable_unit str.

(** [String.prototype.split('\x00')] *)
Fixpoint split_nul (s : jstr) : list jstr :=
  match s with
  | [] => [[]]
  | c :: t =>
      let parts := split_nul t in
      if c =? 0 then [] :: parts
      else match parts with
           | p :: ps => (c :: p) :: ps
           | [] => [[c]]
           end
  end.

(** [parseWidgetUpdate]; no statement of its [try] block throws, so the
    [catch] branch is unreachable. *)
Definition parseWidgetUpdate (payloadData : buffer) : jsval :=
  let parts := split_nul (latin1_decode payloadData) in
  if (length parts <? 2)%nat then
    JObj [(js "error", JStr (js "Insufficient null terminators"));
          (js "rawHex", JStr (to_hex payloadData))]
  else
    let deviceId := nth 0 parts [] in
    let widgetId := if (2 <? length parts)%nat then nth 2 parts [] else [] in
    let widgetValue := if (3 <? length parts)%nat then nth 3 parts [] else [] in
    JObj [(js "widgetId", JStr widgetId); (js "deviceId", JStr deviceId);
          (js "widgetValue", JStr widgetValue)].

(** The [{hex, length, preview}] descriptor of a binary payload. *)
Definition binary_payload (payloadData : buffer) : jsval :=
  JObj [(js "hex", JStr (to_hex payloadData));
        (js "length", JNum (dec (Z.of_nat (length payloadData))));
        (js "preview", JStr (if (50 <? length payloadData)%nat
                             then to_hex (firstn 50 payloadData)
                             else to_hex payloadData))].

(** The payload classification of [parseBinaryMessage] (the [hasPayload]
    branch): telemetry override, then JSON, ASCII, UTF-8, binary.  The
    [toString] calls never throw, so only the JSON [catch] is reachable. *)
Definition classify (byte2 : Z) (payloadData : buffer) : jsval * payload_type :=
  if byte2 =? 0x14 then (parseWidgetUpdate payloadData, widget_update)
  else
    match JSON_parse (utf8_decode payloadData) with
    | Some v => (v, json)
    | None =>
        let asciiStr := ascii_decode payloadData in
        if isPrintable asciiStr then (JStr asciiStr, ascii)
        else
          let utf8Str := utf8_decode payloadData in
          if isPrintable utf8Str then (JStr utf8Str, text)
          else (binary_payload payloadData, binary)
    end.

(** [parseBinaryMessage] *)
Definition parseBinaryMessage (data : buffer) : ParsedMessage :=
  if (length data <? 4)%nat then {| header := None; payload := JNull |}
  else
    let b1 := nth 0 data 0 in
    let b2 := nth 1 data 0 in
    let b3 := nth 2 data 0 in
    let b4 := nth 3 data 0 in
    let hasPayload := (4 <? length data)%nat in
    let '(payload, payloadType) :=
      if hasPayload
      then let '(p, t) := classify b2 (skipn 4 data) in (p, Some t)
      else (JNull, None) in
    {| header := Some {| byte1 := b1; byte2 := b2; byte3 := b3; byte4 := b4;
                         hasPayload := hasPayload;
                         headerHex := to_hex (firstn 4 data);
                         totalLength := Z.of_nat (length data);
                         payloadType := payloadType |};
       payload := payload |}.

(** The [payload] argument of [createBinaryMessage]:
    [Record<string, unknown> | string | null]. *)
Inductive OutPayload :=
| OutNull
| OutString (s : jstr)
| OutRecord (fields : list (jstr * jsval)).

(** [Buffer.from([byte1, byte2, byte3, byte4])] stores each number modulo 256. *)
Definition to_uint8 (n : Z) : Z := Z.land n 255.

(** [createBinaryMessage] *)
Definition createBinaryMessage (payload : OutPayload) (byte1 byte2 byte3 byte4 : Z)
  : buffer :=
  let header := map to_uint8 [byte1; byte2; byte3; byte4] in
  match payload with
  | OutString s => header ++ utf8_encode s
  | OutRecord fs => header ++ utf8_encode (stringify (JObj fs))
  | OutNull => header
  end.

(** The payload type recorded in the header of a decoded frame. *)
Definition payload_type_of (m : ParsedMessage) : option payload_type :=
  match header m with Some h => payloadType h | None => None end.

End Protocol.

(** ** Hash utility: [src/nodejs/src/utils/hash.ts] *)

Module Hash.

(** *** SHA-256 ([createHash('sha256')]), FIPS 180-4 *)

Definition mask32 : Z := 0xFFFFFFFF.
Definition add32 (a b : Z) : Z := Z.land (a + b) mask32.
Definition rotr (x : Z) (n : Z) : Z :=
  Z.land (Z.lor (Z.shiftr x n) (Z.shiftl x (32 - n))) mask32.

Definition Ch (x y z : Z) : Z := Z.lxor (Z.land x y) (Z.land (Z.lxor x mask32) z).
Definition Maj (x y z : Z) : Z :=
  Z.lxor (Z.lxor (Z.land x y) (Z.land x z)) (Z.land y z).
Definition Sigma0 (x : Z) : Z := Z.lxor (Z.lxor (rotr x 2) (rotr x 13)) (rotr x 22).
Definition Sigma1 (x : Z) : Z := Z.lxor (Z.lxor (rotr x 6) (rotr x 11)) (rotr x 25).
Definition sigma0 (x : Z) : Z := Z.lxor (Z.lxor (rotr x 7) (rotr x 18)) (Z.shiftr x 3).
Definition sigma1 (x : Z) : Z := Z.lxor (Z.lxor (rotr x 17) (rotr x 19)) (Z.shiftr x 10).

(** The 64 round constants of FIPS 180-4 (4.2.2), written in decimal. *)
Definition K256 : list Z := [
   1116352408; 1899447441; 3049323471; 3921009573; 961987163; 1508970993;
   2453635748; 2870763221; 3624381080; 310598401; 607225278; 1426881987;
   1925078388; 2162078206; 2614888103; 3248222580; 3835390401; 4022224774;
   264347078; 604807628; 770255983; 1249150122; 1555081692; 1996064986;
   2554220882; 2821834349; 2952996808; 3210313671; 3336571891; 3584528711;
   113926993; 338241895; 666307205; 773529912; 1294757372; 1396182291;
   1695183700; 1986661051; 2177026350; 2456956037; 2730485921; 2820302411;
   3259730800; 3345764771; 3516065817; 3600352804; 4094571909; 275423344;
   430227734; 506948616; 659060556; 883997877; 958139571; 1322822218;
   1537002063; 1747873779; 1955562222; 2024104815; 2227730452; 2361852424;
   2428436474; 2756734187; 3204031479; 3329325298].

Definition H0 : list Z :=
  [0x6a09e667; 0xbb67ae85; 0x3c6ef372; 0xa54ff53a;
   0x510e527f; 0x9b05688c; 0x1f83d9ab; 0x5be0cd19].

(** Big-endian byte/word conversions. *)
Definition be_bytes (nbytes : nat) (x : Z) : list Z :=
  map (fun i => Z.land (Z.shiftr x (8 * Z.of_nat (nbytes - 1 - i))) 255) (seq 0 nbytes).

Fixpoint be_words (b : list Z) : list Z :=
  match b with
  | b0 :: b1 :: b2 :: b3 :: t =>
      Z.lor (Z.shiftl b0 24) (Z.lor (Z.shiftl b1 16) (Z.lor (Z.shiftl b2 8) b3))
      :: be_words t
  | _ => []
  end.

Definition pad (msg : list Z) : list Z :=
  let len := length msg in
  let k := ((64 - (len + 9) mod 64) mod 64)%nat in
  msg ++ [0x80] ++ repeat 0 k ++ be_bytes 8 (8 * Z.of_nat len).

(** Message schedule: extends [w] (oldest first) to 64 words. *)
Fixpoint schedule (n : nat) (w : list Z) : list Z :=
  match n with
  | O => w
  | S n' =>
      let t := length w in
      let wt := add32 (add32 (sigma1 (nth (t - 2) w 0)) (nth (t - 7) w 0))
                      (add32 (sigma0 (nth (t - 15) w 0)) (nth (t - 16) w 0)) in
      schedule n' (w ++ [wt])
  end.

Definition round (st : list Z) (kw : Z * Z) : list Z :=
  match st with
  | [a; b; c; d; e; f; g; h] =>
      let T1 := add32 (add32 (add32 h (Sigma1 e)) (add32 (Ch e f g) (fst kw))) (snd kw) in
      let T2 := add32 (Sigma0 a) (Maj a b c) in
      [add32 T1 T2; a; b; c; add32 d T1; e; f; g]
  | _ => st
  end.

Definition compress (hv : list Z) (block : list Z) : list Z :=
  let w := schedule 48 (be_words block) in
  let st := fold_left round (combine K256 w) hv in
  map (fun p => add32 (fst p) (snd p)) (combine hv st).

Fixpoint blocks (fuel : nat) (b : list Z) : list (list Z) :=
  match fuel with
  | O => []
  | S f => match b with [] => [] | _ => firstn 64 b :: blocks f (skipn 64 b) end
  end.

Definition sha256 (msg : list Z) : list Z :=
  let p := pad msg in
  flat_map (be_bytes 4) (fold_left compress (blocks (length p) p) H0).

(** *** [Buffer.prototype.toString('base64')]: standard alphabet, padded *)

Definition b64_char (n : Z) : Z :=
  if n <? 26 then 65 + n
  else if n <? 52 then 71 + n
  else if n <? 62 then n - 4
  else if n =? 62 then 43 else 47.

Fixpoint base64 (b : list Z) : jstr :=
  match b with
  | x :: y :: z :: t =>
      let n := Z.lor (Z.shiftl x 16) (Z.lor (Z.shiftl y 8) z) in
      [b64_char (Z.shiftr n 18); b64_char (Z.land (Z.shiftr n 12) 63);
       b64_char (Z.land (Z.shiftr n 6) 63); b64_char (Z.land n 63)] ++ base64 t
  | [x; y] =>
      let n := Z.lor (Z.shiftl x 16) (Z.shiftl y 8) in
      [b64_char (Z.shiftr n 18); b64_char (Z.land (Z.shiftr n 12) 63);
       b64_char (Z.land (Z.shiftr n 6) 63); 61]
  | [x] =>
      let n := Z.shiftl x 16 in
      [b64_char (Z.shiftr n 18); b64_char (Z.land (Z.shiftr n 12) 63); 61; 61]
  | [] => []
  end.

(** [calculateHash] calls [String.prototype.toLowerCase], the engine's
    Unicode case mapping (the full lowercase mappings of the Unicode version
    the engine ships, with the final-sigma rule); the hashing code takes it
    as a parameter. *)
Section Lower.
Variable toLowerCase : jstr -> jstr.

(** [calculateHash]: [update(string)] and [Buffer.from(password, 'utf-8')]
    both encode as UTF-8. *)
Definition calculateHash (email password : jstr) : jstr :=
  let emailHash := sha256 (utf8_encode (toLowerCase email)) in
  let combined := utf8_encode password ++ emailHash in
  let finalHash := sha256 combined in
  base64 finalHash.

End Lower.

(** What [String.prototype.toLowerCase] does on a string of Basic Latin
    code units: A-Z map to a-z, the other units are left as they are. *)
Definition ascii_lower (s : jstr) : jstr :=
  map (fun u => if in_range 0x41 0x5A u then u + 0x20 else u) s.

End Hash.

(** ** Connection session and driver: [src/nodejs/src/client.ts] *)

Module Client.
Import Protocol.

(** *** JavaScript helpers used by the client *)

Definition jstr_eqb (a b : jstr) : bool :=
  if list_eq_dec Z.eq_dec a b then true else false.

(** [String(v)] *)
Fixpoint js_String (v : jsval) : jstr :=
  match v with
  | JUndef => js "undefined"
  | JNull => js "null"
  | JBool true => js "true"
  | JBool false => js "false"
  | JNum lit => number_to_string (literal_double lit)
  | JStr s => s
  | JArr l =>
      let fix elems (l : list jsval) : list jstr :=
        match l with
        | [] => []
        | (JUndef | JNull) :: r => [] :: elems r
        | x :: r => js_String x :: elems r
        end in
      join_comma (elems l)
  | JObj _ => js "[object Object]"
  end.

(** Numbers compare by value, [+0] and [-0] being the same key. *)
Definition same_double (x y : double) : bool :=
  match x, y with
  | Finite n1 m1 e1, Finite n2 m2 e2 => (m1 =? m2) && (e1 =? e2) && ((m1 =? 0) || Bool.eqb n1 n2)
  | Infinite n1, Infinite n2 => Bool.eqb n1 n2
  | _, _ => false
  end.

(** [Map] key comparison (SameValueZero).  Objects and arrays of a parsed
    payload are distinct references, so they never compare equal. *)
Definition same_value_zero (a b : jsval) : bool :=
  match a, b with
  | JUndef, JUndef | JNull, JNull => true
  | JBool x, JBool y => Bool.eqb x y
  | JNum x, JNum y => same_double (literal_double x) (literal_double y)
  | JStr x, JStr y => jstr_eqb x y
  | _, _ => false
  end.

(** [Map.prototype.set] on an insertion-ordered association list. *)
Fixpoint map_set {K V : Type} (eqb : K -> K -> bool) (k : K) (v : V)
  (m : list (K * V)) : list (K * V) :=
  match m with
  | [] => [(k, v)]
  | (k', v') :: r => if eqb k' k then (k', v) :: r else (k', v') :: map_set eqb k v r
  end.

Fixpoint map_get {K V : Type} (eqb : K -> K -> bool) (k : K) (m : list (K * V))
  : option V :=
  match m with
  | [] => None
  | (k', v') :: r => if eqb k' k then Some v' else map_get eqb k r
  end.

Definition Error (msg : jstr) : jsval :=
  JObj [(js "name", JStr (js "Error")); (js "message", JStr msg)].
(** The [TypeError] of a property read on [null] / [undefined] (its message
    text is engine specific and not modelled). *)
Definition TypeError : jsval := JObj [(js "name", JStr (js "TypeError"))].

(** *** Environment *)

(** What the socket delivers to one [listen] call before its timer fires. *)
Inductive Arrival := Message (data : buffer) | Silence.

(** [ws] ready states that matter to [send]: sending while connecting
    throws, sending after close is silently dropped. *)
Inductive ReadyState := CONNECTING | OPEN | CLOSED.

Record Socket := mkSocket { readyState : ReadyState; outbox : list buffer }.

(** Outcome of [connect()]: the HTTP preflight fails, or the socket opens,
    or the socket reports an error ([ws] emits [error] with its own error
    object, e.g. [connect ECONNREFUSED ...], and then closes). *)
Inductive ConnectOutcome := HttpFailed | Opened | SocketError (error : jsval).

(** *** Session state: the fields of [EviqoWebsocketConnection], the events
    handed to [emit], and the environment still to be consumed. *)
Record Client := mkClient {
  ws : option Socket;
  user : jsval;
  devices : list jsval;
  devicePages : list jsval;
  messageCounter : Z;
  widgetIdMap : list (Z * list (jstr * jsval));
  widgetNameMap : list (Z * list (jsval * jsval));
  keepaliveTimer : Z;
  emitted : list (jstr * jsval);
  arrivals : list Arrival;
  clock_reads : nat
}.

Definition set_ws x c := mkClient x (user c) (devices c) (devicePages c)
  (messageCounter c) (widgetIdMap c) (widgetNameMap c) (keepaliveTimer c)
  (emitted c) (arrivals c) (clock_reads c).
Definition set_user x c := mkClient (ws c) x (devices c) (devicePages c)
  (messageCounter c) (widgetIdMap c) (widgetNameMap c) (keepaliveTimer c)
  (emitted c) (arrivals c) (clock_reads c).
Definition set_devices x c := mkClient (ws c) (user c) x (devicePages c)
  (messageCounter c) (widgetIdMap c) (widgetNameMap c) (keepaliveTimer c)
  (emitted c) (arrivals c) (clock_reads c).
Definition set_devicePages x c := mkClient (ws c) (user c) (devices c) x
  (messageCounter c) (widgetIdMap c) (widgetNameMap c) (keepaliveTimer c)
  (emitted c) (arrivals c) (clock_reads c).
Definition set_messageCounter x c := mkClient (ws c) (user c) (devices c)
  (devicePages c) x (widgetIdMap c) (widgetNameMap c) (keepaliveTimer c)
  (emitted c) (arrivals c) (clock_reads c).
Definition set_widgetIdMap x c := mkClient (ws c) (user c) (devices c)
  (devicePages c) (messageCounter c) x (widgetNameMap c) (keepaliveTimer c)
  (emitted c) (arrivals c) (clock_reads c).
Definition set_widgetNameMap x c := mkClient (ws c) (user c) (devices c)
  (devicePages c) (messageCounter c) (widgetIdMap c) x (keepaliveTimer c)
  (emitted c) (arrivals c) (clock_reads c).
Definition set_keepaliveTimer x c := mkClient (ws c) (user c) (devices c)
  (devicePages c) (messageCounter c) (widgetIdMap c) (widgetNameMap c) x
  (emitted c) (arrivals c) (clock_reads c).
Definition set_arrivals x c := mkClient (ws c) (user c) (devices c)
  (devicePages c) (messageCounter c) (widgetIdMap c) (widgetNameMap c)
  (keepaliveTimer c) (emitted c) x (clock_reads c).
Definition set_clock_reads x c := mkClient (ws c) (user c) (devices c)
  (devicePages c) (messageCounter c) (widgetIdMap c) (widgetNameMap c)
  (keepaliveTimer c) (emitted c) (arrivals c) x.

(** *** State and exception monad; [Pending] is a run still looping when
    its iteration budget is spent. *)
Inductive Result (A : Type) : Type :=
| Ok (a : A)
| Throw (e : jsval)
| Pending.
Arguments Ok {A} a.
Arguments Throw {A} e.
Arguments Pending {A}.

Definition M (A : Type) : Type := Client -> Result A * Client.

Definition ret {A : Type} (a : A) : M A := fun c => (Ok a, c).
Definition bind {A B : Type} (m : M A) (k : A -> M B) : M B :=
  fun c =>
    match m c with
    | (Ok a, c') => k a c'
    | (Throw e, c') => (Throw e, c')
    | (Pending, c') => (Pending, c')
    end.
Definition throw {A : Type} (e : jsval) : M A := fun c => (Throw e, c).
Definition modify (f : Client -> Client) : M unit := fun c => (Ok tt, f c).
Definition gets {A : Type} (f : Client -> A) : M A := fun c => (Ok (f c), c).
Definition pending {A : Type} : M A := fun c => (Pending, c).

(** A property read or iteration that may throw a [TypeError]. *)
Definition lift {A : Type} (o : option A) : M A :=
  match o with Some a => ret a | None => throw TypeError end.

Local Notation "x <- m ;; k" := (bind m (fun x => k))
  (at level 61, m at next level, right associativity).
Local Notation "m ;; k" := (bind m (fun _ => k)) (at level 61, right associativity).

Fixpoint forM_ {A : Type} (l : list A) (f : A -> M unit) : M unit :=
  match l with
  | [] => ret tt
  | x :: r => f x ;; forM_ r f
  end.

(** [try { m } finally { cleanup }]: the cleanup runs on normal and
    exceptional exit and the outcome of [m] is kept. *)
Definition try_finally {A : Type} (m : M A) (cleanup : M unit) : M A :=
  fun c =>
    match m c with
    | (Pending, c') => (Pending, c')
    | (r, c') => (r, snd (cleanup c'))
    end.

Section Session.

(** Constructor arguments and the environment: the credentials, the wall
    clock read by each [new Date()] (by call number), and the outcome of
    the connection attempt. *)
Variable username password : option jstr.
(** [String.prototype.toLowerCase] of the engine, used by [calculateHash]. *)
Variable toLowerCase : jstr -> jstr.
Variable clock : nat -> Z.
Variable connect_outcome : ConnectOutcome.

(** [new Date().getTime()] *)
Definition now : M Z :=
  fun c => (Ok (clock (clock_reads c)), set_clock_reads (S (clock_reads c)) c).

(** [connect()]: when the socket errors, the returned promise rejects with
    the error [ws] reports, and the rejection escapes the [try] (the
    promise is returned, not awaited); [ws] has closed the socket by then. *)
Definition connect : M bool :=
  match connect_outcome with
  | HttpFailed => ret false
  | Opened => modify (set_ws (Some (mkSocket OPEN []))) ;; ret true
  | SocketError error =>
      modify (set_ws (Some (mkSocket CLOSED []))) ;;
      throw error
  end.

Definition null_message : ParsedMessage := {| header := None; payload := JNull |}.

(** [listen(duration)]: one message or the timeout; never throws. *)
Definition listen : M ParsedMessage :=
  fun c =>
    match ws c with
    | None => (Ok null_message, c)
    | Some _ =>
        match arrivals c with
        | [] => (Ok null_message, c)
        | Silence :: r => (Ok null_message, set_arrivals r c)
        | Message data :: r => (Ok (parseBinaryMessage data), set_arrivals r c)
        end
    end.


(** [ws.send(message)] *)
Definition socket_send (s : Socket) (message : buffer) : option Socket :=
  match readyState s with
  | CONNECTING => None
  | OPEN => Some (mkSocket OPEN (outbox s ++ [message]))
  | CLOSED => Some s
  end.

(** [sendMessage(payload, byte1, byte2, byte3, byte4, description)]; a
    throwing [send] is caught and logged. *)
Definition sendMessage (payload : OutPayload) (byte1 byte2 byte3 : Z)
  (byte4 : option Z) : M unit :=
  fun c =>
    match ws c with
    | None => (Ok tt, c)
    | Some s =>
        let '(actualByte4, c1) :=
          match byte4 with
          | Some b => (b, c)
          | None => (messageCounter c, set_messageCounter (messageCounter c + 1) c)
          end in
        let message := createBinaryMessage payload byte1 byte2 byte3 actualByte4 in
        match socket_send s message with
        | Some s' => (Ok tt, set_ws (Some s') c1)
        | None => (Ok tt, c1)
        end
    end.

(** [keepalive()] *)
Definition keepalive : M unit :=
  t <- now ;;
  timer <- gets keepaliveTimer ;;
  if 15000 <=? t - timer then
    t' <- now ;;
    modify (set_keepaliveTimer t') ;;
    sendMessage OutNull 0x00 0x06 0x00 None ;;
    listen ;;
    ret tt
  else ret tt.

Definition version_fields : list (jstr * jsval) :=
  [(js "clientType", JStr (js "web")); (js "version", JStr (js "0.98.2"));
   (js "locale", JStr (js "en_US"))].

(** [issueInitialization()] *)
Definition issueInitialization : M unit :=
  sendMessage (OutRecord version_fields) 0x01 0x30 0x00 (Some 0x01) ;;
  m <- listen ;;
  match payload m with
  | JNull => throw (Error (js "Init message failed"))
  | _ => ret tt
  end.

(** [login()] *)
Definition login : M unit :=
  match username, password with
  | Some u, Some p =>
      sendMessage
        (OutRecord ((js "email", JStr u) :: (js "hash", JStr (Hash.calculateHash toLowerCase u p))
                    :: version_fields)) 0x00 0x02 0x00 (Some 0x03) ;;
      m <- listen ;;
      match payload m with
      | JNull => throw (Error (js "Did not get back user payload"))
      | p => modify (set_user p)
      end
  | _, _ => throw (Error (js "User and password must be set"))
  end.

Definition device_query : list (jstr * jsval) :=
  [(js "docType", JStr (js "DEVICE")); (js "mode", JStr (js "MATCH_ALL"));
   (js "viewType", JStr (js "LIST"));
   (js "filters", JArr [JObj [(js "type", JStr (js "SUB_SEGMENT"));
                              (js "filters", JArr []);
                              (js "mode", JStr (js "MATCH_ANY"));
                              (js "isCurrent", JBool true)]]);
   (js "offset", JNum (js "0")); (js "limit", JNum (js "17"));
   (js "order", JStr (js "ASC")); (js "sortBy", JStr (js "Name"))].

(** [queryDevices()]: each device is pushed before its [name] and
    [deviceId] are read for the log line. *)
Definition queryDevices : M unit :=
  sendMessage (OutRecord device_query) 0x01 0x1b 0x00 None ;;
  m <- listen ;;
  docs <- lift (js_get (payload m) (js "docs")) ;;
  ds <- lift (js_iter docs) ;;
  forM_ ds (fun device =>
    deviceDetails <- lift (js_get device (js "1")) ;;
    modify (fun c => set_devices (devices c ++ [deviceDetails]) c) ;;
    lift (js_get deviceDetails (js "name")) ;;
    lift (js_get deviceDetails (js "deviceId")) ;;
    ret tt).

(** [requestChargingStatus(deviceId)]; the [JSON.stringify] calls of the
    log lines do not throw on parsed values and are omitted. *)
Definition requestChargingStatus (deviceId : jsval) : M jsval :=
  w <- gets ws ;;
  match w with
  | None => throw (Error (js "Cannot request charging status before websocket is created"))
  | Some _ =>
      let pageId := js "17948" in
      sendMessage (OutString (js_String deviceId)) 0x00 0x49 0x01 None ;;
      listen ;;
      sendMessage (OutRecord [(js "pageId", JStr pageId);
                              (js "deviceId", JStr (js_String deviceId));
                              (js "dashboardPageId", JNull)]) 0x01 0x04 0x01 None ;;
      result <- listen ;;
      ret (payload result)
  end.

Definition upd_id_map (deviceIdx : Z) (f : list (jstr * jsval) -> list (jstr * jsval))
  : M unit :=
  modify (fun c =>
    let inner := match map_get Z.eqb deviceIdx (widgetIdMap c) with
                 | Some m => m | None => [] end in
    set_widgetIdMap (map_set Z.eqb deviceIdx (f inner) (widgetIdMap c)) c).

Definition upd_name_map (deviceIdx : Z) (f : list (jsval * jsval) -> list (jsval * jsval))
  : M unit :=
  modify (fun c =>
    let inner := match map_get Z.eqb deviceIdx (widgetNameMap c) with
                 | Some m => m | None => [] end in
    set_widgetNameMap (map_set Z.eqb deviceIdx (f inner) (widgetNameMap c)) c).

(** [extractWidgetMappings(deviceIdx, devicePage)]; the sorted listing at
    its end only logs and is omitted. *)
Definition extractWidgetMappings (deviceIdx : Z) (devicePage : jsval) : M unit :=
  dashboard <- lift (js_get devicePage (js "dashboard")) ;;
  widgets <- lift (js_get dashboard (js "widgets")) ;;
  upd_id_map deviceIdx (fun m => m) ;;
  upd_name_map deviceIdx (fun m => m) ;;
  ws_ <- lift (js_iter widgets) ;;
  forM_ ws_ (fun widget =>
    modules <- lift (js_get widget (js "modules")) ;;
    ms <- lift (js_iter modules) ;;
    forM_ ms (fun module =>
      displayDataStreams <- lift (js_get module (js "displayDataStreams")) ;;
      ss <- lift (js_iter displayDataStreams) ;;
      forM_ ss (fun stream =>
        id <- lift (js_get stream (js "id")) ;;
        upd_id_map deviceIdx (map_set jstr_eqb (js_String id) stream) ;;
        name <- lift (js_get stream (js "name")) ;;
        upd_name_map deviceIdx (map_set same_value_zero name stream)))).

(** The steady-state loop [while (!justScan) { keepalive(); listen(20) }],
    run for at most [iters] iterations. *)
Fixpoint steady_state (iters : nat) : M unit :=
  match iters with
  | O => pending
  | S n => keepalive ;; listen ;; steady_state n
  end.

Definition close_ws : M unit :=
  modify (fun c =>
    match ws c with
    | Some s => set_ws (Some (mkSocket CLOSED (outbox s))) c
    | None => c
    end).

(** [run(justScan)] *)
Definition run (justScan : bool) (iters : nat) : M unit :=
  connected <- connect ;;
  if negb connected then ret tt
  else
    try_finally
      (issueInitialization ;;
       login ;;
       queryDevices ;;
       ds <- gets devices ;;
       match ds with
       | [] => throw (Error (js "No devices found"))
       | device :: _ =>
           deviceId <- lift (js_get device (js "deviceId")) ;;
           match deviceId with
           | JUndef => throw (Error (js "Device ID was not set"))
           | _ =>
               page <- requestChargingStatus deviceId ;;
               modify (fun c => set_devicePages (devicePages c ++ [page]) c) ;;
               pages <- gets devicePages ;;
               extractWidgetMappings 0 (nth 0 pages JUndef) ;;
               keepalive ;;
               if justScan then ret tt else steady_state iters
           end
       end)
      close_ws.

End Session.

(** A freshly constructed client ([new EviqoWebsocketConnection(...)])
    whose [keepaliveTimer] was read at time [t0], facing [arrivals]. *)
Definition initial (t0 : Z) (arrivals : list Arrival) : Client :=
  mkClient None JNull [] [] 0 [] [] t0 [] arrivals 0.

(** An operation leaves the record of emitted events unchanged. *)
Definition preserves_emitted {A : Type} (m : M A) : Prop :=
  forall c, emitted (snd (m c)) = emitted c.

(** An operation keeps a property of the session state. *)
Definition preserves {A : Type} (P : Client -> Prop) (m : M A) : Prop :=
  forall c, P c -> P (snd (m c)).

End Client.

(** ** A server session (the end-to-end scenario of the specification):
    one device "Home Charger" (89349), a page with one widget stream
    (5, "Charging Power"), and a telemetry push for that stream. *)
Module Scenario.
Import Protocol Client.

Definition srv_init : Arrival :=
  Message (createBinaryMessage (OutRecord [(js "ok", JBool true)]) 0x01 0x30 0x00 0x01).

Definition srv_login : Arrival :=
  Message (createBinaryMessage
    (OutRecord [(js "user", JObj [(js "email", JStr (js "user@example.com"))])])
    0x00 0x02 0x00 0x03).

Definition home_charger : jsval :=
  JObj [(js "name", JStr (js "Home Charger")); (js "deviceId", JNum (js "89349"))].

Definition srv_devices : Arrival :=
  Message (createBinaryMessage
    (OutRecord [(js "docs", JArr [JArr [JNum (js "0"); home_charger]])])
    0x01 0x1b 0x00 0x00).

Definition srv_select_ack : Arrival :=
  Message (createBinaryMessage (OutString (js "ok")) 0x00 0x49 0x01 0x01).

Definition charging_power : jsval :=
  JObj [(js "id", JNum (js "5")); (js "name", JStr (js "Charging Power"))].

Definition srv_page : Arrival :=
  Message (createBinaryMessage
    (OutRecord [(js "dashboard",
      JObj [(js "widgets",
        JArr [JObj [(js "modules",
          JArr [JObj [(js "displayDataStreams", JArr [charging_power])]])]])])])
    0x01 0x04 0x01 0x02).

(** Telemetry push "89349\0vw\05\0241.29" with header (0x00,0x14,0x00,0x00). *)
Definition telemetry_frame : buffer :=
  [0x00; 0x14; 0x00; 0x00] ++ js "89349" ++ [0] ++ js "vw" ++ [0] ++ js "5" ++ [0]
  ++ js "241.29".

Definition creds : option jstr := Some (js "user@example.com").
Definition pass : option jstr := Some (js "pw").
(** A clock that never advances: no keepalive falls due. *)
Definition still_clock (_ : nat) : Z := 0.

End Scenario.

(** The frames the handshake of [run] sends, as built by its [sendMessage]
    calls. *)
Module Frames.
Import Protocol Client.



End Frames.

(** The characters of the standard base64 alphabet (without the padding
    character [=]). *)
Definition b64_alphabet (u : Z) : bool :=
  in_range 0x41 0x5A u || in_range 0x61 0x7A u || in_range 0x30 0x39 u ||
  (u =? 43) || (u =? 47).

(** Values that [JSON.stringify] writes and [JSON.parse] reads back as
    they are: no [undefined], numbers given by a literal of the JSON number
    grammar that is the one [JSON.stringify] writes for its value (so no
    [-0], no [1.0], no [1e400]), strings and keys made of 16-bit code
    units. *)
Definition unit16 (u : Z) : bool := (0 <=? u) && (u <=? 0xFFFF).
Definition number_literal (lit : jstr) : bool :=
  match p_number lit with Some (_, []) => true | _ => false end.
Definition canonical_number (lit : jstr) : bool :=
  number_literal lit && (if list_eq_dec Z.eq_dec (json_number lit) lit then true else false).
Fixpoint plain_json (v : jsval) : bool :=
  match v with
  | JUndef => false
  | JNull | JBool _ => true
  | JNum lit => canonical_number lit
  | JStr s => forallb unit16 s
  | JArr l => forallb plain_json l
  | JObj fs => forallb (fun kv => forallb unit16 (fst kv) && plain_json (snd kv)) fs
  end.

(** * Properties *)

(** ** Frame codec *)

Module CodecFacts.
Import Protocol.

Lemma to_uint8_byte (b : Z) : 0 <= b <= 255 -> to_uint8 b = b.
Proof.
  intros Hb. unfold to_uint8.
  change 255 with (Z.ones 8). rewrite Z.land_ones by lia.
  apply Z.mod_small. lia.
Qed.

Lemma to_uint8_mod (b : Z) : to_uint8 b = b mod 256.
Proof.
  unfold to_uint8. change 255 with (Z.ones 8). rewrite Z.land_ones by lia.
  reflexivity.
Qed.

(** A buffer of at least four bytes always decodes to a header carrying
    its first four bytes. *)
Lemma parse_header_bytes (x1 x2 x3 x4 : Z) (rest : buffer) :
  exists h,
    header (parseBinaryMessage (x1 :: x2 :: x3 :: x4 :: rest)) = Some h /\
    byte1 h = x1 /\ byte2 h = x2 /\ byte3 h = x3 /\ byte4 h = x4 /\
    hasPayload h = (4 <? length (x1 :: x2 :: x3 :: x4 :: rest))%nat.
Proof.
  unfold parseBinaryMessage. simpl.
  destruct (length rest) eqn:E; simpl.
  - eexists; repeat split.
  - destruct (classify x2 rest). eexists; repeat split.
Qed.

Lemma parse_four (data : buffer) :
  length data = 4%nat ->
  exists h, header (parseBinaryMessage data) = Some h /\ hasPayload h = false /\
            payload (parseBinaryMessage data) = JNull.
Proof.
  intros Hl.
  destruct data as [|x1 [|x2 [|x3 [|x4 [|x5 r]]]]]; simpl in Hl; try discriminate.
  unfold parseBinaryMessage; simpl. eexists; repeat split.
Qed.

Lemma payload_type_of_classify (b1 b2 b3 b4 : Z) (p : buffer) :
  p <> [] ->
  payload_type_of (parseBinaryMessage ([b1; b2; b3; b4] ++ p)) =
  Some (snd (classify b2 p)).
Proof.
  intros Hp. destruct p as [|x r]; [congruence|].
  unfold payload_type_of, parseBinaryMessage. simpl.
  destruct (classify b2 (x :: r)). reflexivity.
Qed.

Lemma split_nul_nonempty (s : jstr) : split_nul s <> [].
Proof.
  destruct s as [|c t]; simpl; [discriminate|].
  destruct (c =? 0); [discriminate|].
  destruct (split_nul t); discriminate.
Qed.

End CodecFacts.

Import Protocol CodecFacts.

(** C4: for every header tuple of bytes and every payload kind (null,
    string, record), decoding the encoded frame yields a header whose four
    bytes are exactly the tuple. *)
Theorem decode_encode_header (p : OutPayload) (b1 b2 b3 b4 : Z) :
  0 <= b1 <= 255 -> 0 <= b2 <= 255 -> 0 <= b3 <= 255 -> 0 <= b4 <= 255 ->
  exists h,
    header (parseBinaryMessage (createBinaryMessage p b1 b2 b3 b4)) = Some h /\
    byte1 h = b1 /\ byte2 h = b2 /\ byte3 h = b3 /\ byte4 h = b4.
Proof.
  intros H1 H2 H3 H4.
  assert (Hc : exists rest, createBinaryMessage p b1 b2 b3 b4 = b1 :: b2 :: b3 :: b4 :: rest).
  { unfold createBinaryMessage; simpl.
    rewrite !to_uint8_byte by assumption.
    destruct p; eexists; reflexivity. }
  destruct Hc as [rest ->].
  destruct (parse_header_bytes b1 b2 b3 b4 rest) as (h & Hh & E1 & E2 & E3 & E4 & _).
  exists h. repeat split; assumption.
Qed.

Lemma decode_encode_header_witness :
  (0 <= 1 <= 255 /\ 0 <= 0x30 <= 255 /\ 0 <= 0 <= 255 /\ 0 <= 255 <= 255) /\
  exists h,
    header (parseBinaryMessage
              (createBinaryMessage (OutRecord [(js "k", JStr (js "v"))]) 1 0x30 0 255))
    = Some h /\ byte1 h = 1 /\ byte2 h = 0x30 /\ byte3 h = 0 /\ byte4 h = 255.
Proof.
  split; [repeat split; lia|].
  apply (decode_encode_header (OutRecord [(js "k", JStr (js "v"))]) 1 0x30 0 255); lia.
Defined.

(** C5: every input shorter than 4 bytes decodes to a null header and a
    null payload; the decoder is a total function (it cannot throw). *)
Theorem decode_short_input (data : buffer) :
  (length data < 4)%nat ->
  parseBinaryMessage data = {| header := None; payload := JNull |}.
Proof.
  intros Hl. unfold parseBinaryMessage.
  apply Nat.ltb_lt in Hl. rewrite Hl. reflexivity.
Qed.

Lemma decode_short_input_witness :
  (length [0x01; 0x02] < 4)%nat /\
  parseBinaryMessage [0x01; 0x02] = {| header := None; payload := JNull |}.
Proof.
  split; [simpl; lia|].
  apply (decode_short_input [0x01; 0x02]). simpl; lia.
Defined.

(** C6: a telemetry payload with fewer than two NUL-delimited segments
    yields the error-shaped result carrying the payload bytes as hex (and
    [parseWidgetUpdate] is total, it cannot throw). *)
Theorem widget_update_insufficient (payloadData : buffer) :
  (length (split_nul (latin1_decode payloadData)) < 2)%nat ->
  parseWidgetUpdate payloadData =
  JObj [(js "error", JStr (js "Insufficient null terminators"));
        (js "rawHex", JStr (to_hex payloadData))].
Proof.
  intros Hl. unfold parseWidgetUpdate.
  apply Nat.ltb_lt in Hl. rewrite Hl. reflexivity.
Qed.

Lemma widget_update_insufficient_witness :
  (length (split_nul (latin1_decode (js "invalid"))) < 2)%nat /\
  parseWidgetUpdate (js "invalid") =
  JObj [(js "error", JStr (js "Insufficient null terminators"));
        (js "rawHex", JStr (js "696e76616c6964"))].
Proof.
  split; [vm_compute; lia|].
  apply (widget_update_insufficient (js "invalid")). vm_compute. lia.
Defined.

(** C9: an empty string payload encodes to exactly the four header bytes,
    the same frame as a null payload; every 4-byte input decodes with
    [hasPayload = false] and a null payload, so the empty string does not
    round-trip. *)
Theorem empty_string_payload (b1 b2 b3 b4 : Z) :
  createBinaryMessage (OutString []) b1 b2 b3 b4 = createBinaryMessage OutNull b1 b2 b3 b4 /\
  length (createBinaryMessage OutNull b1 b2 b3 b4) = 4%nat /\
  (forall data, length data = 4%nat ->
     exists h, header (parseBinaryMessage data) = Some h /\ hasPayload h = false /\
               payload (parseBinaryMessage data) = JNull) /\
  payload (parseBinaryMessage (createBinaryMessage (OutString []) b1 b2 b3 b4)) <> JStr [].
Proof.
  split; [reflexivity|].
  split; [reflexivity|].
  split; [exact parse_four|].
  destruct (parse_four (createBinaryMessage (OutString []) b1 b2 b3 b4))
    as (h & _ & _ & ->); [reflexivity|].
  discriminate.
Qed.

Lemma empty_string_payload_witness :
  length [1; 2; 3; 4] = 4%nat /\
  exists h, header (parseBinaryMessage [1; 2; 3; 4]) = Some h /\ hasPayload h = false /\
            payload (parseBinaryMessage [1; 2; 3; 4]) = JNull.
Proof.
  split; [reflexivity|].
  destruct (empty_string_payload 0 0 0 0) as (_ & _ & H & _).
  apply H. reflexivity.
Defined.

(** C10 (counterexample): with three segments [widgetId] is the third
    segment, not the empty string. *)
Lemma widget_update_three_segments_cex :
  length (split_nul (latin1_decode (js "89349" ++ [0] ++ js "vw" ++ [0] ++ js "5"))) = 3%nat /\
  parseWidgetUpdate (js "89349" ++ [0] ++ js "vw" ++ [0] ++ js "5") =
  JObj [(js "widgetId", JStr (js "5")); (js "deviceId", JStr (js "89349"));
        (js "widgetValue", JStr [])] /\
  js_get (parseWidgetUpdate (js "89349" ++ [0] ++ js "vw" ++ [0] ++ js "5")) (js "widgetId")
  <> Some (JStr []).
Proof.
  split; [reflexivity|]. split; [reflexivity|].
  vm_compute. discriminate.
Qed.

(** C10 (amended): a telemetry payload with exactly two or three
    NUL-delimited segments yields the success-shaped result (no [error]
    field) whose [deviceId] is the first segment and whose [widgetValue] is
    the empty string; [widgetId] is the empty string for two segments and
    the third segment for three.  More generally no payload with at least
    two segments yields the [error] field. *)
Theorem widget_update_two_three_segments (payloadData : buffer) :
  let parts := split_nul (latin1_decode payloadData) in
  (length parts = 2%nat ->
   parseWidgetUpdate payloadData =
   JObj [(js "widgetId", JStr []); (js "deviceId", JStr (nth 0 parts []));
         (js "widgetValue", JStr [])]) /\
  (length parts = 3%nat ->
   parseWidgetUpdate payloadData =
   JObj [(js "widgetId", JStr (nth 2 parts [])); (js "deviceId", JStr (nth 0 parts []));
         (js "widgetValue", JStr [])]) /\
  ((2 <= length parts)%nat ->
   js_get (parseWidgetUpdate payloadData) (js "error") = Some JUndef).
Proof.
  intros parts. unfold parseWidgetUpdate. fold parts.
  split; [|split].
  - intros H. rewrite H. reflexivity.
  - intros H. rewrite H. reflexivity.
  - intros H. replace (length parts <? 2)%nat with false.
    + reflexivity.
    + symmetry. apply Nat.ltb_ge. exact H.
Qed.

Lemma widget_update_two_three_segments_witness :
  length (split_nul (latin1_decode (js "89349" ++ [0] ++ js "vw"))) = 2%nat /\
  parseWidgetUpdate (js "89349" ++ [0] ++ js "vw") =
  JObj [(js "widgetId", JStr []); (js "deviceId", JStr (js "89349"));
        (js "widgetValue", JStr [])].
Proof.
  split; [reflexivity|].
  destruct (widget_update_two_three_segments (js "89349" ++ [0] ++ js "vw")) as [H _].
  apply H. reflexivity.
Defined.

(** ** Hash utility *)

Module HashFacts.
Import Hash.

(** The SHA-256 model against the FIPS 180-4 test vectors (one and two
    blocks). *)
Lemma sha256_abc :
  to_hex (sha256 (js "abc")) =
  js "ba7816bf8f01cfea414140de5dae2223b00361a396177a9cb410ff61f20015ad".
Proof. vm_compute. reflexivity. Qed.

Lemma sha256_two_blocks :
  to_hex (sha256 (js "abcdbcdecdefdefgefghfghighijhijkijkljklmklmnlmnomnopnopq")) =
  js "248d6a61d20638b8e5c026930c3e6039a33ce45964ff2167f6ecedd419db06c1".
Proof. vm_compute. reflexivity. Qed.

Lemma base64_man : base64 (js "Man") = js "TWFu" /\ base64 (js "Ma") = js "TWE=".
Proof. split; reflexivity. Qed.

End HashFacts.

(** C7: for the engine's [toLowerCase], whatever its Unicode tables,
    [calculateHash(email, password)] is the padded standard base64 of
    SHA-256(utf8(password) ++ SHA-256(utf8(toLowerCase(email)))).  When
    [toLowerCase] maps the strings of Basic Latin code units as JavaScript
    does (A-Z to a-z, the rest unchanged), "Test@Example.Com" and
    "test@example.com" give the same hash, and the password is not case
    normalised: "pw" and "PW" give different hashes. *)
Theorem calculateHash_spec (lower : jstr -> jstr) :
  (forall email password,
     Hash.calculateHash lower email password =
     Hash.base64 (Hash.sha256 (utf8_encode password ++
                               Hash.sha256 (utf8_encode (lower email))))) /\
  ((forall s, Forall (fun u => 0 <= u < 0x80) s -> lower s = Hash.ascii_lower s) ->
   Hash.calculateHash lower (js "Test@Example.Com") (js "pw") =
   Hash.calculateHash lower (js "test@example.com") (js "pw") /\
   Hash.calculateHash lower (js "test@example.com") (js "pw") <>
   Hash.calculateHash lower (js "test@example.com") (js "PW")).
Proof.
  split; [reflexivity|]. intros Hl.
  assert (E1 : lower (js "Test@Example.Com") = js "test@example.com").
  { rewrite Hl; [reflexivity|]. repeat constructor; lia. }
  assert (E2 : lower (js "test@example.com") = js "test@example.com").
  { rewrite Hl; [reflexivity|]. repeat constructor; lia. }
  unfold Hash.calculateHash. rewrite E1, E2. split; [reflexivity|].
  vm_compute. discriminate.
Qed.

Lemma calculateHash_spec_witness :
  (forall s, Forall (fun u => 0 <= u < 0x80) s -> Hash.ascii_lower s = Hash.ascii_lower s) /\
  Hash.calculateHash Hash.ascii_lower (js "Test@Example.Com") (js "pw") =
  Hash.calculateHash Hash.ascii_lower (js "test@example.com") (js "pw") /\
  Hash.calculateHash Hash.ascii_lower (js "test@example.com") (js "pw") <>
  Hash.calculateHash Hash.ascii_lower (js "test@example.com") (js "PW").
Proof.
  assert (H : forall s, Forall (fun u => 0 <= u < 0x80) s -> Hash.ascii_lower s = Hash.ascii_lower s)
    by (intros s _; reflexivity).
  split; [exact H|].
  exact (proj2 (calculateHash_spec Hash.ascii_lower) H).
Defined.

(** ** Payload classification *)

Module ClassifyFacts.
Import Protocol.

Ltac zbool :=
  repeat match goal with
  | H : (_ <? _) = true |- _ => apply Z.ltb_lt in H
  | H : (_ <? _) = false |- _ => apply Z.ltb_ge in H
  | H : (_ <=? _) = true |- _ => apply Z.leb_le in H
  | H : (_ <=? _) = false |- _ => apply Z.leb_gt in H
  | H : (_ =? _) = true |- _ => apply Z.eqb_eq in H
  | H : in_range _ _ _ = true |- _ => unfold in_range in H
  | H : _ && _ = true |- _ => apply andb_prop in H; destruct H
  end.

(** *** UTF-8 decoding never swallows an ASCII byte *)

Lemma utf8_step_keeps_ascii (b1 : Z) (t u r : buffer) :
  utf8_step b1 t = (u, r) ->
  (length r <= length t)%nat /\
  (forall x, In x (b1 :: t) -> 0 <= x < 0x80 -> In x u \/ In x r).
Proof.
  intros H. unfold utf8_step in H. cbv zeta in H.
  repeat match goal with
  | H : context [if ?c then _ else _] |- _ => destruct c eqn:?
  | H : context [match ?l with [] => _ | _ :: _ => _ end] |- _ => destruct l eqn:?
  end;
  injection H as <- <-; zbool;
  (split; [simpl; lia|]);
  intros x Hx Hr;
  repeat match goal with H : In _ (_ :: _) |- _ => destruct H as [<- | H] end;
  first [ left; simpl; tauto | right; simpl; tauto | lia ].
Qed.

Lemma utf8_decode_fuel_keeps_ascii (n : nat) (b : buffer) (x : Z) :
  (length b <= n)%nat -> In x b -> 0 <= x < 0x80 -> In x (utf8_decode_fuel n b).
Proof.
  revert b. induction n as [|n IH]; intros b Hl Hx Hr.
  - destruct b; simpl in *; [contradiction | lia].
  - destruct b as [|b1 t]; [contradiction|].
    simpl. destruct (utf8_step b1 t) as [u r] eqn:Hs.
    destruct (utf8_step_keeps_ascii b1 t u r Hs) as [Hlen Hk].
    apply in_or_app. destruct (Hk x Hx Hr) as [Hu | Hr'].
    + left; exact Hu.
    + right. apply IH; [simpl in Hl; lia | exact Hr' | exact Hr].
Qed.

Lemma utf8_decode_keeps_ascii (b : buffer) (x : Z) :
  In x b -> 0 <= x < 0x80 -> In x (utf8_decode b).
Proof. intros. apply utf8_decode_fuel_keeps_ascii; auto. Qed.

(** *** [JSON.parse] rejects raw control characters other than JSON
    whitespace: no parser step consumes such a character. *)

Definition json_ok (c : Z) : bool := is_ws c || (0x20 <=? c).

Definition keeps (s r : jstr) : Prop :=
  forall x, In x s -> json_ok x = false -> In x r.

Lemma keeps_refl (s : jstr) : keeps s s.
Proof. intros x Hx _. exact Hx. Qed.

Lemma keeps_trans (s q r : jstr) : keeps s q -> keeps q r -> keeps s r.
Proof. intros H1 H2 x Hx Hb. apply H2; [apply H1|]; assumption. Qed.

Lemma keeps_cons (c : Z) (t r : jstr) : json_ok c = true -> keeps t r -> keeps (c :: t) r.
Proof.
  intros Hc H x [<- | Hx] Hb; [congruence | apply H; assumption].
Qed.

Lemma keeps_prefix (pre r : jstr) : forallb json_ok pre = true -> keeps (pre ++ r) r.
Proof.
  intros Hp x Hx Hb. apply in_app_or in Hx as [Hx | Hx]; [|exact Hx].
  rewrite forallb_forall in Hp. specialize (Hp x Hx). congruence.
Qed.

Lemma skip_ws_keeps (s : jstr) : keeps s (skip_ws s).
Proof.
  induction s as [|c t IH]; simpl; [apply keeps_refl|].
  destruct (is_ws c) eqn:Hc; [|apply keeps_refl].
  apply keeps_cons; [unfold json_ok; rewrite Hc; reflexivity | exact IH].
Qed.

Lemma keeps_skip (s q : jstr) : skip_ws s = q -> keeps s q.
Proof. intros <-. apply skip_ws_keeps. Qed.

Lemma json_ok_ge (c : Z) : 0x20 <= c -> json_ok c = true.
Proof. intros H. unfold json_ok. apply Z.leb_le in H. rewrite H, orb_true_r. reflexivity. Qed.

Lemma skip_digits_keeps (s : jstr) : keeps s (skip_digits s).
Proof.
  induction s as [|c t IH]; simpl; [apply keeps_refl|].
  destruct (is_digit c) eqn:Hc; [|apply keeps_refl].
  apply keeps_cons; [|exact IH]. unfold is_digit in Hc. zbool. apply json_ok_ge. lia.
Qed.

Lemma digits1_keeps (s r : jstr) : digits1 s = Some r -> keeps s r.
Proof.
  destruct s as [|c t]; simpl; [discriminate|].
  destruct (is_digit c) eqn:Hc; [|discriminate]. intros [= <-].
  apply keeps_cons; [|apply skip_digits_keeps]. unfold is_digit in Hc. zbool.
  apply json_ok_ge. lia.
Qed.

Ltac char_ok := apply json_ok_ge; zbool; lia.

Lemma p_number_keeps (s : jstr) (v : jsval) (r : jstr) :
  p_number s = Some (v, r) -> keeps s r.
Proof.
  unfold p_number. intros H.
  assert (H0 : keeps s (opt_char 0x2D s)).
  { destruct s as [|c t]; simpl; [apply keeps_refl|].
    destruct (c =? 0x2D) eqn:E; [apply keeps_cons; [char_ok | apply keeps_refl] | apply keeps_refl]. }
  destruct (p_int (opt_char 0x2D s)) as [r1|] eqn:E1; [|discriminate].
  destruct (p_frac r1) as [r2|] eqn:E2; [|discriminate].
  destruct (p_exp r2) as [r3|] eqn:E3; [|discriminate].
  injection H as _ <-.
  apply (keeps_trans _ _ _ H0).
  assert (K1 : keeps (opt_char 0x2D s) r1).
  { destruct (opt_char 0x2D s) as [|c t]; simpl in E1; [discriminate|].
    destruct (c =? 0x30) eqn:Ec.
    - injection E1 as <-. apply keeps_cons; [char_ok | apply keeps_refl].
    - destruct (is_digit c) eqn:Hd; [|discriminate]. injection E1 as <-.
      apply keeps_cons; [unfold is_digit in Hd; char_ok | apply skip_digits_keeps]. }
  apply (keeps_trans _ _ _ K1).
  assert (K2 : keeps r1 r2).
  { destruct r1 as [|c t]; simpl in E2; [injection E2 as <-; apply keeps_refl|].
    destruct (c =? 0x2E) eqn:Ec.
    - apply keeps_cons; [char_ok | apply digits1_keeps; exact E2].
    - injection E2 as <-. apply keeps_refl. }
  apply (keeps_trans _ _ _ K2).
  destruct r2 as [|c t]; simpl in E3; [injection E3 as <-; apply keeps_refl|].
  destruct ((c =? 0x65) || (c =? 0x45)) eqn:Ec.
  - apply keeps_cons.
    + apply orb_prop in Ec as [Ec | Ec]; char_ok.
    + destruct t as [|d u]; [apply digits1_keeps; exact E3|].
      destruct ((d =? 0x2B) || (d =? 0x2D)) eqn:Ed.
      * apply keeps_cons; [apply orb_prop in Ed as [Ed | Ed]; char_ok | apply digits1_keeps; exact E3].
      * apply digits1_keeps; exact E3.
  - injection E3 as <-. apply keeps_refl.
Qed.

Lemma simple_escape_ge (e x : Z) : simple_escape e = Some x -> 0x20 <= e.
Proof.
  unfold simple_escape. intros H.
  repeat match goal with
  | H : context [if ?c then _ else _] |- _ => destruct c eqn:?
  end; try discriminate; zbool; lia.
Qed.

Lemma hex_val_ge (h x : Z) : hex_val h = Some x -> 0x20 <= h.
Proof.
  unfold hex_val, is_digit. intros H.
  repeat match goal with
  | H : context [if ?c then _ else _] |- _ => destruct c eqn:?
  end; try discriminate; zbool; lia.
Qed.

Lemma p_string_body_keeps_n (n : nat) (s : jstr) (str r : jstr) :
  (length s <= n)%nat -> p_string_body s = Some (str, r) -> keeps s r.
Proof.
  revert s str r. induction n as [|n IH]; intros s str r Hl H.
  - destruct s; simpl in *; [discriminate | lia].
  - destruct s as [|c t]; [discriminate|]. simpl in H, Hl.
    destruct (c =? 0x22) eqn:E1.
    + injection H as _ <-. apply keeps_cons; [char_ok | apply keeps_refl].
    + destruct (c =? 0x5C) eqn:E2.
      * apply keeps_cons; [char_ok|].
        destruct t as [|e u]; [discriminate|]. simpl in Hl.
        destruct (simple_escape e) as [x|] eqn:Ee.
        -- destruct (p_string_body u) as [[str' r']|] eqn:Eu; [|discriminate].
           injection H as _ <-.
           apply keeps_cons; [apply json_ok_ge; eapply simple_escape_ge; exact Ee|].
           apply (IH u str'); [lia | exact Eu].
        -- destruct (e =? 0x75) eqn:E3; [|discriminate].
           apply keeps_cons; [char_ok|].
           destruct u as [|h1 [|h2 [|h3 [|h4 u']]]]; try discriminate.
           simpl in Hl.
           destruct (hex_val h1) eqn:Eh1; [|discriminate].
           destruct (hex_val h2) eqn:Eh2; [|discriminate].
           destruct (hex_val h3) eqn:Eh3; [|discriminate].
           destruct (hex_val h4) eqn:Eh4; [|discriminate].
           destruct (p_string_body u') as [[str' r']|] eqn:Eu; [|discriminate].
           injection H as _ <-.
           repeat (apply keeps_cons; [apply json_ok_ge; eapply hex_val_ge; eassumption|]).
           apply (IH u' str'); [lia | exact Eu].
      * destruct (c <? 0x20) eqn:E3; [discriminate|].
        destruct (p_string_body t) as [[str' r']|] eqn:Et; [|discriminate].
        injection H as _ <-.
        apply keeps_cons; [char_ok|]. apply (IH t str'); [lia | exact Et].
Qed.

Lemma p_string_body_keeps (s str r : jstr) : p_string_body s = Some (str, r) -> keeps s r.
Proof. apply p_string_body_keeps_n with (n := length s). lia. Qed.

Lemma p_lit_keeps (lit : jstr) (v : jsval) (s : jstr) (v' : jsval) (r : jstr) :
  forallb json_ok lit = true -> p_lit lit v s = Some (v', r) -> keeps s r.
Proof.
  unfold p_lit. intros Hlit H.
  destruct (list_eq_dec Z.eq_dec (firstn (length lit) s) lit) as [E|]; [|discriminate].
  injection H as _ <-.
  rewrite <- (firstn_skipn (length lit) s) at 1. rewrite E.
  apply keeps_prefix. exact Hlit.
Qed.

Ltac via_ws E := eapply keeps_trans; [apply keeps_skip; exact E|].
Ltac via_char := apply keeps_cons; [char_ok|].

Lemma p_keeps (n : nat) :
  (forall s v r, p_value n s = Some (v, r) -> keeps s r) /\
  (forall s l r, p_elements n s = Some (l, r) -> keeps s r) /\
  (forall s fs r, p_members n s = Some (fs, r) -> keeps s r).
Proof.
  induction n as [|n IH].
  - repeat split; intros; discriminate.
  - destruct IH as (IHv & IHe & IHm). repeat split.
    + intros s v r H. simpl in H.
      destruct (skip_ws s) as [|c t] eqn:Es; [discriminate|]. via_ws Es.
      destruct (c =? 0x7B) eqn:E1; [|destruct (c =? 0x5B) eqn:E2;
        [|destruct (c =? 0x22) eqn:E3]].
      * via_char. destruct (skip_ws t) as [|d u] eqn:Et; [discriminate|]. via_ws Et.
        destruct (d =? 0x7D) eqn:E4.
        -- injection H as _ <-. via_char. apply keeps_refl.
        -- destruct (p_members n (d :: u)) as [[fs r']|] eqn:Em; [|discriminate].
           injection H as _ <-. eapply IHm; exact Em.
      * via_char. destruct (skip_ws t) as [|d u] eqn:Et; [discriminate|]. via_ws Et.
        destruct (d =? 0x5D) eqn:E4.
        -- injection H as _ <-. via_char. apply keeps_refl.
        -- destruct (p_elements n (d :: u)) as [[l r']|] eqn:Em; [|discriminate].
           injection H as _ <-. eapply IHe; exact Em.
      * via_char. destruct (p_string_body t) as [[str r']|] eqn:Eb; [|discriminate].
        injection H as _ <-. eapply p_string_body_keeps; exact Eb.
      * destruct (c =? 0x74) eqn:E4; [eapply p_lit_keeps; [|exact H]; reflexivity|].
        destruct (c =? 0x66) eqn:E5; [eapply p_lit_keeps; [|exact H]; reflexivity|].
        destruct (c =? 0x6E) eqn:E6; [eapply p_lit_keeps; [|exact H]; reflexivity|].
        eapply p_number_keeps; exact H.
    + intros s l r H. simpl in H.
      destruct (p_value n s) as [[v r1]|] eqn:Ev; [|discriminate].
      apply (keeps_trans _ r1); [eapply IHv; exact Ev|].
      destruct (skip_ws r1) as [|d u] eqn:Er; [discriminate|]. via_ws Er.
      destruct (d =? 0x2C) eqn:E1.
      * destruct (p_elements n u) as [[l' r']|] eqn:Ee; [|discriminate].
        injection H as _ <-. via_char. eapply IHe; exact Ee.
      * destruct (d =? 0x5D) eqn:E2; [|discriminate].
        injection H as _ <-. via_char. apply keeps_refl.
    + intros s fs r H. simpl in H.
      destruct (skip_ws s) as [|c t] eqn:Es; [discriminate|]. via_ws Es.
      destruct (c =? 0x22) eqn:E1; [|discriminate]. via_char.
      destruct (p_string_body t) as [[k r1]|] eqn:Eb; [|discriminate].
      apply (keeps_trans _ r1); [eapply p_string_body_keeps; exact Eb|].
      destruct (skip_ws r1) as [|d u] eqn:Er; [discriminate|]. via_ws Er.
      destruct (d =? 0x3A) eqn:E2; [|discriminate]. via_char.
      destruct (p_value n u) as [[v r2]|] eqn:Ev; [|discriminate].
      apply (keeps_trans _ r2); [eapply IHv; exact Ev|].
      destruct (skip_ws r2) as [|e w] eqn:Er2; [discriminate|]. via_ws Er2.
      destruct (e =? 0x2C) eqn:E3.
      * destruct (p_members n w) as [[fs' r3]|] eqn:Em; [|discriminate].
        injection H as _ <-. via_char. eapply IHm; exact Em.
      * destruct (e =? 0x7D) eqn:E4; [|discriminate].
        injection H as _ <-. via_char. apply keeps_refl.
Qed.

(** Every code unit of a text accepted by [JSON.parse] is JSON whitespace
    or at least U+0020. *)
Lemma JSON_parse_json_ok (s : jstr) (v : jsval) :
  JSON_parse s = Some v -> forall x, In x s -> json_ok x = true.
Proof.
  unfold JSON_parse. intros H x Hx.
  destruct (p_value (2 * length s + 2) s) as [[v' r]|] eqn:E; [|discriminate].
  destruct (skip_ws r) eqn:Er; [|discriminate].
  destruct (json_ok x) eqn:Hb; [reflexivity|].
  assert (K : keeps s []).
  { apply (keeps_trans _ r); [|apply keeps_skip; exact Er].
    destruct (p_keeps (2 * length s + 2)) as (Hv & _). eapply Hv; exact E. }
  destruct (K x Hx Hb).
Qed.

Lemma forallb_false_in {A : Type} (f : A -> bool) (l : list A) (x : A) :
  In x l -> f x = false -> forallb f l = false.
Proof.
  intros Hx Hf. destruct (forallb f l) eqn:E; [|reflexivity].
  rewrite forallb_forall in E. rewrite (E x Hx) in Hf. discriminate.
Qed.

Lemma control_byte_cases (x : Z) :
  0 <= x <= 8 ->
  json_ok x = false /\ printable_unit x = false /\ Z.land x 0x7F = x.
Proof.
  intros Hx.
  assert (x = 0 \/ x = 1 \/ x = 2 \/ x = 3 \/ x = 4 \/ x = 5 \/ x = 6 \/ x = 7 \/ x = 8)
    as Hc by lia.
  repeat destruct Hc as [-> | Hc]; subst; repeat split; reflexivity.
Qed.

Lemma ascii_decode_printable (p : buffer) : isPrintable p = true -> ascii_decode p = p.
Proof.
  unfold isPrintable, ascii_decode. induction p as [|x r IH]; simpl; [reflexivity|].
  intros H. apply andb_prop in H as [Hx Hr]. rewrite (IH Hr). f_equal.
  assert (Hb : 0 <= x < 128).
  { unfold printable_unit in Hx.
    repeat match goal with
    | H : _ || _ = true |- _ => apply orb_prop in H; destruct H
    end; zbool; lia. }
  change 0x7F with (Z.ones 7). rewrite Z.land_ones by lia. apply Z.mod_small. lia.
Qed.

End ClassifyFacts.

Import ClassifyFacts.

(** C3 (counterexample): a printable payload that is valid JSON ("123")
    is classified as JSON rather than text, and with [byte2 = 0x14] a
    payload holding a control byte is classified as a telemetry update
    rather than binary. *)
Lemma classify_printable_cex :
  isPrintable (js "123") = true /\
  payload_type_of (parseBinaryMessage ([0; 0; 0; 0] ++ js "123")) = Some json /\
  In 1 [1] /\
  payload_type_of (parseBinaryMessage ([0; 0x14; 0; 0] ++ [1])) = Some widget_update.
Proof. repeat split; try reflexivity. left. reflexivity. Qed.

(** C3 (amended): for a frame with a payload whose [byte2] is not the
    telemetry flag [0x14], a payload made only of printable bytes
    (0x20-0x7E, LF, CR, TAB) is classified as JSON when its text parses as
    JSON and as ASCII text otherwise, never as binary; a payload holding a
    byte in 0x00-0x08 is classified as binary. *)
Theorem classify_printable_and_control (b1 b2 b3 b4 : Z) (p : buffer) :
  p <> [] -> b2 <> 0x14 ->
  (isPrintable p = true ->
   payload_type_of (parseBinaryMessage ([b1; b2; b3; b4] ++ p)) = Some json \/
   payload_type_of (parseBinaryMessage ([b1; b2; b3; b4] ++ p)) = Some ascii) /\
  ((exists x, In x p /\ 0 <= x <= 8) ->
   payload_type_of (parseBinaryMessage ([b1; b2; b3; b4] ++ p)) = Some binary).
Proof.
  intros Hp Hb2. rewrite (payload_type_of_classify b1 b2 b3 b4 p Hp).
  unfold classify. apply Z.eqb_neq in Hb2. rewrite Hb2. split.
  - intros Hpr. destruct (JSON_parse (utf8_decode p)) eqn:EJ; [left; reflexivity|].
    rewrite (ascii_decode_printable p Hpr), Hpr. right. reflexivity.
  - intros (x & Hx & Hr).
    destruct (control_byte_cases x Hr) as (Hj & Hpu & Hl).
    assert (Hu : In x (utf8_decode p)) by (apply utf8_decode_keeps_ascii; [exact Hx | lia]).
    destruct (JSON_parse (utf8_decode p)) as [v|] eqn:EJ.
    + rewrite (JSON_parse_json_ok _ v EJ x Hu) in Hj. discriminate.
    + assert (Ha : In x (ascii_decode p)).
      { unfold ascii_decode. rewrite <- Hl. apply (in_map (fun y => Z.land y 0x7F)). exact Hx. }
      unfold isPrintable.
      rewrite (forallb_false_in printable_unit _ x Ha Hpu).
      rewrite (forallb_false_in printable_unit _ x Hu Hpu).
      reflexivity.
Qed.

Lemma classify_printable_and_control_witness :
  (js "ok" <> [] /\ 0x02 <> 0x14 /\ isPrintable (js "ok") = true) /\
  (payload_type_of (parseBinaryMessage ([1; 2; 3; 4] ++ js "ok")) = Some json \/
   payload_type_of (parseBinaryMessage ([1; 2; 3; 4] ++ js "ok")) = Some ascii) /\
  payload_type_of (parseBinaryMessage ([1; 2; 3; 4] ++ [0x41; 0x00; 0xFF])) = Some binary.
Proof.
  split; [repeat split; [discriminate | discriminate]|]. split.
  - destruct (classify_printable_and_control 1 2 3 4 (js "ok")) as [H _];
      [discriminate | discriminate |].
    apply H. reflexivity.
  - destruct (classify_printable_and_control 1 2 3 4 [0x41; 0x00; 0xFF]) as [_ H];
      [discriminate | discriminate |].
    apply H. exists 0. split; [simpl; auto | lia].
Defined.

(** ** Session *)

Module SessionFacts.
Import Protocol Client.

Lemma sendMessage_eq (p : OutPayload) (b1 b2 b3 : Z) (b4 : option Z) (c : Client) :
  sendMessage p b1 b2 b3 b4 c = (Ok tt, snd (sendMessage p b1 b2 b3 b4 c)).
Proof.
  unfold sendMessage. destruct (ws c); [|reflexivity].
  destruct b4; destruct (socket_send _ _); reflexivity.
Qed.

(** Sending does not change what the next [listen] sees. *)
Lemma listen_after_send (p : OutPayload) (b1 b2 b3 : Z) (b4 : option Z) (c : Client) :
  fst (listen (snd (sendMessage p b1 b2 b3 b4 c))) = fst (listen c).
Proof.
  unfold sendMessage. destruct (ws c) as [s|] eqn:Hws; [|reflexivity].
  unfold listen.
  destruct b4; destruct (socket_send _ _); simpl; rewrite ?Hws;
    destruct (arrivals c) as [|[]]; reflexivity.
Qed.

Lemma listen_ok (c : Client) : exists m, fst (listen c) = Ok m.
Proof.
  unfold listen. destruct (ws c); [|eexists; reflexivity].
  destruct (arrivals c) as [|[d|] r]; eexists; reflexivity.
Qed.

Lemma sendMessage_arrivals (p : OutPayload) (b1 b2 b3 : Z) (b4 : option Z) (c : Client) :
  arrivals (snd (sendMessage p b1 b2 b3 b4 c)) = arrivals c.
Proof.
  unfold sendMessage. destruct (ws c); [|reflexivity].
  destruct b4; destruct (socket_send _ _); reflexivity.
Qed.

Lemma sendMessage_ws_some (p : OutPayload) (b1 b2 b3 : Z) (b4 : option Z) (c : Client) (s : Socket) :
  ws c = Some s -> exists s', ws (snd (sendMessage p b1 b2 b3 b4 c)) = Some s'.
Proof.
  unfold sendMessage. intros H. rewrite H.
  destruct b4; destruct (socket_send _ _) eqn:E; simpl; eauto.
Qed.

(** What [listen] returns depends only on whether a socket exists and on
    the pending arrivals. *)
Lemma listen_fst_eq (c c' : Client) :
  (ws c = None <-> ws c' = None) -> arrivals c = arrivals c' ->
  fst (listen c) = fst (listen c').
Proof.
  intros Hw Ha. unfold listen.
  destruct (ws c) eqn:E1; destruct (ws c') eqn:E2.
  - rewrite Ha. destruct (arrivals c') as [|[]]; reflexivity.
  - destruct Hw as [_ H]. discriminate (H eq_refl).
  - destruct Hw as [H _]. discriminate (H eq_refl).
  - reflexivity.
Qed.

Lemma listen_step (c : Client) (s : Socket) (a : Arrival) (r : list Arrival) :
  ws c = Some s -> arrivals c = a :: r ->
  exists m, listen c = (Ok m, set_arrivals r c).
Proof.
  intros Hw Ha. unfold listen. rewrite Hw, Ha. destruct a; eexists; reflexivity.
Qed.

(** A send followed by [listen] sees what [listen] would have seen. *)
Ltac send_listen H :=
  rewrite sendMessage_eq;
  match goal with
  | |- context [listen (snd (sendMessage ?p ?b1 ?b2 ?b3 ?b4 ?c))] =>
      let E := fresh "E" in
      let Hl := fresh "Hl" in
      destruct (listen (snd (sendMessage p b1 b2 b3 b4 c))) eqn:E;
      pose proof (listen_after_send p b1 b2 b3 b4 c) as Hl;
      rewrite E, H in Hl; simpl in Hl; subst
  end.

(** *** No operation of the client emits an event *)

Create HintDb emits.

Lemma pe_ret {A : Type} (a : A) : preserves_emitted (ret a).
Proof. intros c. reflexivity. Qed.
Lemma pe_throw {A : Type} (e : jsval) : preserves_emitted (A := A) (throw e).
Proof. intros c. reflexivity. Qed.
Lemma pe_gets {A : Type} (f : Client -> A) : preserves_emitted (gets f).
Proof. intros c. reflexivity. Qed.
Lemma pe_pending {A : Type} : preserves_emitted (A := A) pending.
Proof. intros c. reflexivity. Qed.
Lemma pe_lift {A : Type} (o : option A) : preserves_emitted (lift o).
Proof. destruct o; intros c; reflexivity. Qed.

Lemma pe_bind {A B : Type} (m : M A) (k : A -> M B) :
  preserves_emitted m -> (forall a, preserves_emitted (k a)) ->
  preserves_emitted (bind m k).
Proof.
  intros Hm Hk c. unfold bind.
  specialize (Hm c). destruct (m c) as [[a| |] c'] eqn:E; simpl in *;
    [rewrite Hk|..]; exact Hm.
Qed.

Lemma pe_forM_ {A : Type} (l : list A) (f : A -> M unit) :
  (forall x, preserves_emitted (f x)) -> preserves_emitted (forM_ l f).
Proof.
  intros Hf. induction l as [|x r IH]; simpl.
  - apply pe_ret.
  - apply pe_bind; [apply Hf | intros _; exact IH].
Qed.

Lemma pe_try_finally {A : Type} (m : M A) (cleanup : M unit) :
  preserves_emitted m -> preserves_emitted cleanup ->
  preserves_emitted (try_finally m cleanup).
Proof.
  intros Hm Hc c. unfold try_finally.
  specialize (Hm c). destruct (m c) as [[a| |] c'];
    simpl in *; rewrite ?Hc; exact Hm.
Qed.

#[local] Hint Resolve pe_ret pe_throw pe_gets pe_pending pe_lift : emits.

(** Unfold an operation and take it apart along its binds and branches. *)
Ltac pe_solve :=
  repeat first
    [ solve [eauto with emits]
    | apply pe_bind; [|intro]
    | apply pe_forM_; intro
    | apply pe_try_finally
    | match goal with
      | |- preserves_emitted (match ?x with _ => _ end) => destruct x
      | |- preserves_emitted (modify _) => intro; reflexivity
      end ].

Lemma pe_now clock : preserves_emitted (now clock).
Proof. intros c. reflexivity. Qed.
Lemma pe_connect o : preserves_emitted (connect o).
Proof. unfold connect. pe_solve. Qed.
Lemma pe_listen : preserves_emitted listen.
Proof.
  intros c. unfold listen. destruct (ws c); [destruct (arrivals c) as [|[]]|]; reflexivity.
Qed.
Lemma pe_sendMessage p b1 b2 b3 b4 : preserves_emitted (sendMessage p b1 b2 b3 b4).
Proof.
  intros c. unfold sendMessage. destruct (ws c); [|reflexivity].
  destruct b4; destruct (socket_send _ _); reflexivity.
Qed.
#[local] Hint Resolve pe_now pe_connect pe_listen pe_sendMessage : emits.

Lemma pe_keepalive clock : preserves_emitted (keepalive clock).
Proof. unfold keepalive. pe_solve. Qed.
Lemma pe_issueInitialization : preserves_emitted issueInitialization.
Proof. unfold issueInitialization. pe_solve. Qed.
Lemma pe_login u p lw : preserves_emitted (login u p lw).
Proof. unfold login. pe_solve. Qed.
Lemma pe_queryDevices : preserves_emitted queryDevices.
Proof. unfold queryDevices. pe_solve. Qed.
Lemma pe_requestChargingStatus d : preserves_emitted (requestChargingStatus d).
Proof. unfold requestChargingStatus. pe_solve. Qed.
Lemma pe_extractWidgetMappings i page : preserves_emitted (extractWidgetMappings i page).
Proof. unfold extractWidgetMappings, upd_id_map, upd_name_map. pe_solve. Qed.
#[local] Hint Resolve pe_keepalive pe_issueInitialization pe_login pe_queryDevices
  pe_requestChargingStatus pe_extractWidgetMappings : emits.

Lemma pe_steady_state clock n : preserves_emitted (steady_state clock n).
Proof. induction n; simpl; pe_solve. Qed.
Lemma pe_close_ws : preserves_emitted close_ws.
Proof. intros c. unfold close_ws. simpl. destruct (ws c); reflexivity. Qed.
#[local] Hint Resolve pe_steady_state pe_close_ws : emits.

Lemma pe_run u p lw clock o justScan iters :
  preserves_emitted (run u p lw clock o justScan iters).
Proof. unfold run. pe_solve. Qed.

End SessionFacts.

Import Client SessionFacts.

(** C8 (counterexample): before a socket exists an auto-mode send leaves
    the counter at 0, and with the counter at 256 the fourth header byte
    sent is 0, not the counter. *)
Lemma sendMessage_counter_cex :
  messageCounter (snd (sendMessage OutNull 0x00 0x06 0x00 None (initial 0 []))) = 0 /\
  ws (snd (sendMessage OutNull 0x00 0x06 0x00 None
             (set_ws (Some (mkSocket OPEN [])) (set_messageCounter 256 (initial 0 [])))))
  = Some (mkSocket OPEN [[0x00; 0x06; 0x00; 0x00]]).
Proof. split; reflexivity. Qed.

(** C8 (amended): once the socket exists, a send that omits [b4] uses the
    current counter (modulo 256, the header field being a byte) as the
    fourth header byte and increments the counter by exactly 1; a send with
    an explicit [b4] leaves the counter unchanged; before the socket exists
    [sendMessage] returns without sending or counting.  The counter never
    decreases. *)
Theorem sendMessage_counter (payload : OutPayload) (b1 b2 b3 : Z) (c : Client) :
  (ws c = None -> sendMessage payload b1 b2 b3 None c = (Ok tt, c)) /\
  (forall s, ws c = Some s ->
     messageCounter (snd (sendMessage payload b1 b2 b3 None c)) = messageCounter c + 1 /\
     (readyState s = OPEN ->
      ws (snd (sendMessage payload b1 b2 b3 None c)) =
      Some (mkSocket OPEN (outbox s ++ [createBinaryMessage payload b1 b2 b3 (messageCounter c)]))) /\
     nth 3 (createBinaryMessage payload b1 b2 b3 (messageCounter c)) 0 = messageCounter c mod 256) /\
  (forall b4,
     messageCounter (snd (sendMessage payload b1 b2 b3 (Some b4) c)) = messageCounter c) /\
  messageCounter c <= messageCounter (snd (sendMessage payload b1 b2 b3 None c)).
Proof.
  unfold sendMessage. split; [|split; [|split]].
  - intros H. rewrite H. reflexivity.
  - intros s H. rewrite H. split; [|split].
    + destruct (socket_send _ _); reflexivity.
    + intros Hr. unfold socket_send. rewrite Hr. reflexivity.
    + unfold createBinaryMessage. destruct payload; simpl; apply to_uint8_mod.
  - intros b4. destruct (ws c); [destruct (socket_send _ _)|]; reflexivity.
  - destruct (ws c); [cbn; destruct (socket_send _ _); simpl; lia | simpl; lia].
Qed.

Lemma sendMessage_counter_witness :
  sendMessage OutNull 0x00 0x06 0x00 None (initial 0 []) = (Ok tt, initial 0 []) /\
  messageCounter (snd (sendMessage OutNull 0x00 0x06 0x00 None
                         (set_ws (Some (mkSocket OPEN [])) (initial 0 [])))) = 1.
Proof.
  split.
  - destruct (sendMessage_counter OutNull 0x00 0x06 0x00 (initial 0 [])) as [H _].
    apply H. reflexivity.
  - destruct (sendMessage_counter OutNull 0x00 0x06 0x00
                (set_ws (Some (mkSocket OPEN [])) (initial 0 []))) as [_ [H _]].
    apply (H (mkSocket OPEN [])). reflexivity.
Defined.


(** ** The handshake of [run], stage by stage *)

Module Handshake.
Import Protocol Client Frames.






















End Handshake.

Import Frames Handshake.



(** C1 (code bug): no operation of the driver emits an event, so the
    emitted-event log after [run] is the one it started with, for every
    configuration, input and number of loop iterations.  In particular a
    session that receives a decoded telemetry frame in its steady-state
    loop ends with no event emitted although the frame was consumed. *)
Theorem driver_never_emits :
  (forall u p lower clock o justScan iters c,
     emitted (snd (run u p lower clock o justScan iters c)) = emitted c) /\
  payload_type_of (parseBinaryMessage Scenario.telemetry_frame) = Some widget_update /\
  (forall lower,
   let c := snd (run Scenario.creds Scenario.pass lower Scenario.still_clock Opened false 1
                  (initial 0 [Scenario.srv_init; Scenario.srv_login; Scenario.srv_devices;
                              Scenario.srv_select_ack; Scenario.srv_page;
                              Message Scenario.telemetry_frame])) in
   arrivals c = [] /\ emitted c = []).
Proof.
  split; [|split].
  - intros u p lower clock o justScan iters c. apply pe_run.
  - vm_compute. reflexivity.
  - intros lower. vm_compute. split; reflexivity.
Qed.

(** * Further properties of the codec, the hash and the session *)

(** ** Bit arithmetic used by the byte codecs *)

Module Bits.

(** Or-ing a value whose low [k] bits are clear with a [k]-bit value is
    addition. *)
Lemma lor_low (a y k : Z) :
  0 <= k -> a mod 2 ^ k = 0 -> 0 <= y < 2 ^ k -> Z.lor a y = a + y.
Proof.
  intros Hk Ha Hy.
  assert (Hl : Z.land a y = 0).
  { apply Z.bits_inj_0. intros n. rewrite Z.land_spec.
    destruct (Z.lt_ge_cases n k) as [Hn|Hn].
    - destruct (Z.lt_ge_cases n 0) as [Hn0|Hn0].
      + rewrite Z.testbit_neg_r by exact Hn0. reflexivity.
      + rewrite (Z.div_mod a (2 ^ k)) by (apply Z.pow_nonzero; lia).
        rewrite Ha, Z.add_0_r, Z.mul_comm, Z.mul_pow2_bits_low by lia. reflexivity.
    - rewrite <- (Z.mod_small y (2 ^ k)) by lia.
      rewrite Z.mod_pow2_bits_high by lia. apply andb_false_r. }
  rewrite <- Z.lxor_lor by exact Hl. rewrite Z.add_nocarry_lxor by exact Hl.
  reflexivity.
Qed.

Lemma shiftl_mod (x k : Z) : 0 <= k -> Z.shiftl x k mod 2 ^ k = 0.
Proof. intros Hk. rewrite Z.shiftl_mul_pow2 by lia. apply Z.mod_mul. apply Z.pow_nonzero; lia. Qed.

(** [Z.land x (2^k - 1)] as a remainder, for the masks the codecs use. *)
Ltac masks :=
  repeat match goal with
  | |- context [Z.land _ 0x3F] => change 0x3F with (Z.ones 6)
  | |- context [Z.land _ 0x1F] => change 0x1F with (Z.ones 5)
  | |- context [Z.land _ 0x0F] => change 0x0F with (Z.ones 4)
  | |- context [Z.land _ 0x07] => change 0x07 with (Z.ones 3)
  | |- context [Z.land _ 0x7F] => change 0x7F with (Z.ones 7)
  | |- context [Z.land _ 0x3FF] => change 0x3FF with (Z.ones 10)
  | |- context [Z.land _ 255] => change 255 with (Z.ones 8)
  end;
  repeat rewrite Z.land_ones by lia;
  repeat match goal with
  | |- context [2 ^ ?k] =>
      let v := eval compute in (2 ^ k) in change (2 ^ k) with v
  end.

(** Name each [x mod k] and [x / k] of the goal and relate them, so that
    [lia] can reason about them. *)
Ltac mod_facts :=
  repeat match goal with
  | |- context [?x mod ?k] =>
      let r := fresh "r" in let q := fresh "q" in
      let E := fresh "Edm" in let B := fresh "Bdm" in
      assert (E : x = k * (x / k) + x mod k) by (apply Z.div_mod; lia);
      assert (B : 0 <= x mod k < k) by (apply Z.mod_pos_bound; lia);
      set (r := x mod k) in *; set (q := x / k) in *; clearbody r q
  end.

End Bits.

(** ** Frame codec *)

Module CodecMore.
Import Protocol CodecFacts ClassifyFacts.

Lemma split_nul_no_nul (a : jstr) : ~ In 0 a -> split_nul a = [a].
Proof.
  induction a as [|x r IH]; simpl; intros H; [reflexivity|].
  rewrite IH by tauto.
  destruct (x =? 0) eqn:E; [apply Z.eqb_eq in E; subst; tauto | reflexivity].
Qed.

Lemma split_nul_app_nul (a b : jstr) :
  ~ In 0 a -> split_nul (a ++ 0 :: b) = a :: split_nul b.
Proof.
  induction a as [|x r IH]; simpl; intros H; [reflexivity|].
  rewrite IH by tauto.
  destruct (x =? 0) eqn:E; [apply Z.eqb_eq in E; subst; tauto | reflexivity].
Qed.

(** [split('\x00')] yields one more part than there are NUL units. *)
Lemma split_nul_length (s : jstr) :
  length (split_nul s) = S (count_occ Z.eq_dec s 0).
Proof.
  induction s as [|c t IH]; simpl; [reflexivity|].
  destruct (c =? 0) eqn:E.
  - apply Z.eqb_eq in E. subst. simpl. rewrite IH.
    destruct (Z.eq_dec 0 0); [reflexivity | congruence].
  - apply Z.eqb_neq in E.
    destruct (Z.eq_dec c 0) as [e|_]; [congruence|].
    destruct (split_nul t); simpl in *; [discriminate | exact IH].
Qed.

(** A NUL-free prefix followed by a NUL is the first part. *)
Lemma split_nul_first (d r : jstr) :
  ~ In 0 d -> nth 0 (split_nul (d ++ 0 :: r)) [] = d.
Proof. intros H. rewrite split_nul_app_nul by exact H. reflexivity. Qed.

Lemma widget_segments (d x w v rest : buffer) :
  ~ In 0 d -> ~ In 0 x -> ~ In 0 w -> ~ In 0 v ->
  (rest = [] \/ exists r, rest = 0 :: r) ->
  parseWidgetUpdate (d ++ 0 :: x ++ 0 :: w ++ 0 :: v ++ rest) =
  JObj [(js "widgetId", JStr w); (js "deviceId", JStr d); (js "widgetValue", JStr v)].
Proof.
  intros Hd Hx Hw Hv Hr. unfold parseWidgetUpdate, latin1_decode.
  rewrite split_nul_app_nul by exact Hd.
  rewrite split_nul_app_nul by exact Hx.
  rewrite split_nul_app_nul by exact Hw.
  destruct Hr as [-> | [r ->]].
  - rewrite app_nil_r, split_nul_no_nul by exact Hv. reflexivity.
  - rewrite split_nul_app_nul by exact Hv.
    destruct (split_nul r) as [|p ps] eqn:Er; [destruct (split_nul_nonempty r Er)|].
    reflexivity.
Qed.

End CodecMore.
Import CodecMore.

(** The telemetry parse reports the [error] result exactly when the payload
    holds no NUL byte; as soon as it holds one, the result is the
    success-shaped record whose [deviceId] is the bytes before the first
    NUL. *)
Theorem parseWidgetUpdate_error_iff_no_nul (payloadData : buffer) :
  (~ In 0 payloadData ->
   parseWidgetUpdate payloadData =
   JObj [(js "error", JStr (js "Insufficient null terminators"));
         (js "rawHex", JStr (to_hex payloadData))]) /\
  (forall d r, payloadData = d ++ 0 :: r -> ~ In 0 d ->
   js_get (parseWidgetUpdate payloadData) (js "error") = Some JUndef /\
   js_get (parseWidgetUpdate payloadData) (js "deviceId") = Some (JStr d)).
Proof.
  split.
  - intros H. unfold parseWidgetUpdate, latin1_decode.
    rewrite split_nul_no_nul by exact H. reflexivity.
  - intros d r -> Hd. unfold parseWidgetUpdate, latin1_decode.
    rewrite split_nul_app_nul by exact Hd.
    destruct (split_nul r) as [|p ps] eqn:Er; [destruct (split_nul_nonempty r Er)|].
    simpl. split; reflexivity.
Qed.

Lemma parseWidgetUpdate_error_iff_no_nul_witness :
  ~ In 0 (js "89349") /\
  js_get (parseWidgetUpdate (js "89349" ++ 0 :: js "vw")) (js "deviceId")
  = Some (JStr (js "89349")).
Proof.
  assert (H : ~ In 0 (js "89349")) by (simpl; lia).
  split; [exact H|].
  destruct (parseWidgetUpdate_error_iff_no_nul (js "89349" ++ 0 :: js "vw")) as [_ K].
  apply (K (js "89349") (js "vw") eq_refl H).
Defined.

(** A telemetry payload [deviceId NUL x NUL widgetId NUL widgetValue]
    (segments free of NUL) parses to exactly those three fields, the second
    segment being ignored; anything after a fourth NUL is dropped, so a
    widget value cannot contain a NUL. *)
Theorem parseWidgetUpdate_segments (d x w v rest : buffer) :
  ~ In 0 d -> ~ In 0 x -> ~ In 0 w -> ~ In 0 v ->
  (rest = [] \/ exists r, rest = 0 :: r) ->
  parseWidgetUpdate (d ++ 0 :: x ++ 0 :: w ++ 0 :: v ++ rest) =
  JObj [(js "widgetId", JStr w); (js "deviceId", JStr d); (js "widgetValue", JStr v)].
Proof. apply widget_segments. Qed.

Lemma parseWidgetUpdate_segments_witness :
  parseWidgetUpdate (js "89349" ++ 0 :: js "vw" ++ 0 :: js "5" ++ 0 :: js "241.29" ++ [0; 65]) =
  JObj [(js "widgetId", JStr (js "5")); (js "deviceId", JStr (js "89349"));
        (js "widgetValue", JStr (js "241.29"))].
Proof.
  apply parseWidgetUpdate_segments; try (simpl; lia).
  right. exists [65]. reflexivity.
Defined.

Module HexFacts.

Lemma hex_digit_range (d : Z) :
  0 <= d < 16 -> (48 <= hex_digit d <= 57) \/ (97 <= hex_digit d <= 102).
Proof. intros H. unfold hex_digit. destruct (d <? 10) eqn:E; zbool; lia. Qed.

Lemma hex_digit_inj (d e : Z) :
  0 <= d < 16 -> 0 <= e < 16 -> hex_digit d = hex_digit e -> d = e.
Proof.
  intros Hd He. unfold hex_digit.
  destruct (d <? 10) eqn:E1; destruct (e <? 10) eqn:E2; zbool; lia.
Qed.

Lemma nibbles (x : Z) :
  0 <= x <= 255 ->
  0 <= Z.shiftr x 4 < 16 /\ 0 <= Z.land x 15 < 16 /\
  x = 16 * Z.shiftr x 4 + Z.land x 15.
Proof.
  intros Hx. rewrite Z.shiftr_div_pow2 by lia. Bits.masks.
  change (2 ^ 4) with 16. repeat split; try lia.
  - apply Z.div_pos; lia.
  - apply Z.div_lt_upper_bound; lia.
  - apply Z.mod_pos_bound. lia.
  - apply Z.mod_pos_bound. lia.
  - apply Z.div_mod. lia.
Qed.

End HexFacts.

(** [toString('hex')] writes two lowercase hex digits per byte, and
    distinct byte sequences give distinct strings. *)
Theorem to_hex_spec (b : buffer) :
  length (to_hex b) = (2 * length b)%nat /\
  (Forall (fun x => 0 <= x <= 255) b ->
   forall u, In u (to_hex b) -> (48 <= u <= 57) \/ (97 <= u <= 102)) /\
  (forall b', Forall (fun x => 0 <= x <= 255) b -> Forall (fun x => 0 <= x <= 255) b' ->
   to_hex b = to_hex b' -> b = b').
Proof.
  split; [|split].
  - induction b as [|x r IH]; simpl; [reflexivity|]. rewrite IH. lia.
  - intros Hb u Hu. unfold to_hex in Hu. apply in_flat_map in Hu as (x & Hx & Hu).
    rewrite Forall_forall in Hb. destruct (HexFacts.nibbles x (Hb x Hx)) as (H1 & H2 & _).
    destruct Hu as [<- | [<- | []]]; apply HexFacts.hex_digit_range; assumption.
  - induction b as [|x r IH]; intros [|y r'] Hb Hb' E; simpl in E; try discriminate.
    + reflexivity.
    + inversion Hb as [|? ? Hx Hr]; inversion Hb' as [|? ? Hy Hr']; subst.
      injection E as E1 E2 E3.
      destruct (HexFacts.nibbles x Hx) as (Hx1 & Hx2 & Hx3).
      destruct (HexFacts.nibbles y Hy) as (Hy1 & Hy2 & Hy3).
      apply HexFacts.hex_digit_inj in E1; [|assumption..].
      apply HexFacts.hex_digit_inj in E2; [|assumption..].
      f_equal; [lia|]. apply IH; assumption.
Qed.

Module Utf8Arith.
Import Bits.

Lemma decode2 (b1 b2 : Z) :
  Z.lor (Z.shiftl (Z.land b1 0x1F) 6) (Z.land b2 0x3F) = (b1 mod 32) * 64 + b2 mod 64.
Proof.
  rewrite lor_low with (k := 6); [|lia|apply shiftl_mod; lia|].
  - rewrite Z.shiftl_mul_pow2 by lia. masks. reflexivity.
  - masks. change (2 ^ 6) with 64. apply Z.mod_pos_bound. lia.
Qed.

Lemma decode3 (b1 b2 b3 : Z) :
  Z.lor (Z.shiftl (Z.land b1 0x0F) 12) (Z.lor (Z.shiftl (Z.land b2 0x3F) 6) (Z.land b3 0x3F))
  = (b1 mod 16) * 4096 + (b2 mod 64) * 64 + b3 mod 64.
Proof.
  assert (Hi : Z.lor (Z.shiftl (Z.land b2 0x3F) 6) (Z.land b3 0x3F) = (b2 mod 64) * 64 + b3 mod 64).
  { rewrite lor_low with (k := 6); [|lia|apply shiftl_mod; lia|].
    - rewrite Z.shiftl_mul_pow2 by lia. masks. reflexivity.
    - masks. change (2 ^ 6) with 64. apply Z.mod_pos_bound. lia. }
  rewrite Hi. rewrite lor_low with (k := 12); [|lia|apply shiftl_mod; lia|].
  - rewrite Z.shiftl_mul_pow2 by lia. masks. change (2 ^ 12) with 4096. lia.
  - change (2 ^ 12) with 4096.
    pose proof (Z.mod_pos_bound b2 64). pose proof (Z.mod_pos_bound b3 64). lia.
Qed.

Lemma decode4 (b1 b2 b3 b4 : Z) :
  Z.lor (Z.shiftl (Z.land b1 0x07) 18)
    (Z.lor (Z.shiftl (Z.land b2 0x3F) 12)
       (Z.lor (Z.shiftl (Z.land b3 0x3F) 6) (Z.land b4 0x3F)))
  = (b1 mod 8) * 262144 + (b2 mod 64) * 4096 + (b3 mod 64) * 64 + b4 mod 64.
Proof.
  pose proof (Z.mod_pos_bound b2 64). pose proof (Z.mod_pos_bound b3 64).
  pose proof (Z.mod_pos_bound b4 64).
  assert (H3 : Z.lor (Z.shiftl (Z.land b3 0x3F) 6) (Z.land b4 0x3F) = (b3 mod 64) * 64 + b4 mod 64).
  { rewrite lor_low with (k := 6); [|lia|apply shiftl_mod; lia|].
    - rewrite Z.shiftl_mul_pow2 by lia. masks. reflexivity.
    - masks. change (2 ^ 6) with 64. lia. }
  rewrite H3.
  assert (H2 : Z.lor (Z.shiftl (Z.land b2 0x3F) 12) ((b3 mod 64) * 64 + b4 mod 64)
               = (b2 mod 64) * 4096 + (b3 mod 64) * 64 + b4 mod 64).
  { rewrite lor_low with (k := 12); [|lia|apply shiftl_mod; lia|].
    - rewrite Z.shiftl_mul_pow2 by lia. masks. change (2 ^ 12) with 4096. lia.
    - change (2 ^ 12) with 4096. lia. }
  rewrite H2. rewrite lor_low with (k := 18); [|lia|apply shiftl_mod; lia|].
  - rewrite Z.shiftl_mul_pow2 by lia. masks. change (2 ^ 18) with 262144. lia.
  - change (2 ^ 18) with 262144. lia.
Qed.

(** A continuation byte [0x80 | y] for a 6-bit [y]. *)
Lemma cont_byte (y : Z) : 0 <= y < 64 -> Z.lor 0x80 y = 0x80 + y.
Proof. intros Hy. apply lor_low with (k := 6); [lia | reflexivity | exact Hy]. Qed.

Lemma lead_byte (a y k : Z) : 0 <= k -> a mod 2 ^ k = 0 -> 0 <= y < 2 ^ k -> Z.lor a y = a + y.
Proof. apply lor_low. Qed.

End Utf8Arith.

Module NeverText.
Import Protocol CodecFacts ClassifyFacts Utf8Arith.

Lemma printable_high (x : Z) : 0x7E < x -> printable_unit x = false.
Proof.
  intros H. unfold printable_unit.
  destruct (0x20 <=? x) eqn:E1; destruct (x <=? 0x7E) eqn:E2;
    destruct (x =? 0x0A) eqn:E3; destruct (x =? 0x0D) eqn:E4; destruct (x =? 0x09) eqn:E5;
    zbool; simpl; try reflexivity; lia.
Qed.

Lemma cp_units_head (c : Z) :
  0x7E < c -> exists x u, cp_units c = x :: u /\ printable_unit x = false.
Proof.
  intros Hc. unfold cp_units. destruct (c <? 0x10000) eqn:E.
  - exists c, []. split; [reflexivity | apply printable_high; exact Hc].
  - zbool. eexists; eexists; split; [reflexivity|]. apply printable_high.
    assert (0 <= Z.shiftr (c - 0x10000) 10) by (apply Z.shiftr_nonneg; lia). lia.
Qed.

(** A lead byte of [0x80] or more never decodes to a printable unit
    first. *)
Lemma utf8_step_high (b1 : Z) (t u r : buffer) :
  0x80 <= b1 -> utf8_step b1 t = (u, r) ->
  exists x u', u = x :: u' /\ printable_unit x = false.
Proof.
  intros Hb H. unfold utf8_step in H.
  cbv zeta in H.
  repeat match goal with
  | H : context [if ?c then _ else _] |- _ => destruct c eqn:?
  | H : context [match ?l with [] => _ | _ :: _ => _ end] |- _ => destruct l eqn:?
  end;
  apply pair_equal_spec in H as [<- <-]; zbool;
  rewrite ?decode2, ?decode3, ?decode4;
  first [ exists 0xFFFD, []; split; reflexivity
        | lia
        | apply cp_units_head; Bits.mod_facts; lia ].
Qed.

Lemma utf8_decode_fuel_printable (n : nat) (b : buffer) :
  (length b <= n)%nat -> isPrintable (utf8_decode_fuel n b) = true -> isPrintable b = true.
Proof.
  revert b. induction n as [|n IH]; intros b Hl H.
  - destruct b; [reflexivity | simpl in Hl; lia].
  - destruct b as [|b1 t]; [reflexivity|].
    simpl in H. destruct (utf8_step b1 t) as [u r] eqn:Hs.
    unfold isPrintable in H |- *. rewrite forallb_app in H. apply andb_prop in H as [Hu Hr].
    destruct (Z.lt_ge_cases b1 0x80) as [Hlow | Hhigh].
    + unfold utf8_step in Hs. replace (b1 <? 0x80) with true in Hs by (symmetry; apply Z.ltb_lt; exact Hlow).
      injection Hs as <- <-. simpl in Hu |- *. rewrite andb_true_r in Hu. rewrite Hu.
      apply IH; [simpl in Hl; lia | exact Hr].
    + destruct (utf8_step_high b1 t u r Hhigh Hs) as (x & u' & -> & Hx).
      simpl in Hu. rewrite Hx in Hu. discriminate.
Qed.

End NeverText.

(** The decoder never classifies a payload as ['text']: a payload whose
    UTF-8 decoding is printable consists of printable ASCII bytes only, so
    the ASCII branch, tried first, already accepts it. *)
Theorem parseBinaryMessage_never_text (data : buffer) :
  payload_type_of (parseBinaryMessage data) <> Some text.
Proof.
  unfold payload_type_of, parseBinaryMessage.
  destruct (length data <? 4)%nat; [discriminate|].
  destruct (4 <? length data)%nat; [|discriminate].
  unfold classify.
  destruct (nth 1 data 0 =? 0x14); [discriminate|].
  destruct (JSON_parse (utf8_decode (skipn 4 data))); [discriminate|].
  destruct (isPrintable (ascii_decode (skipn 4 data))) eqn:Ea; [discriminate|].
  destruct (isPrintable (utf8_decode (skipn 4 data))) eqn:Eu; [|discriminate].
  apply NeverText.utf8_decode_fuel_printable in Eu; [|lia].
  rewrite (ascii_decode_printable _ Eu), Eu in Ea. discriminate.
Qed.

Module AsciiFrames.
Import Protocol CodecFacts ClassifyFacts.

Lemma utf8_encode_ascii (s : jstr) :
  Forall (fun u => 0 <= u < 0x80) s -> utf8_encode s = s.
Proof.
  induction 1 as [|u t Hu _ IH]; [reflexivity|]. simpl.
  unfold is_high_surrogate, is_low_surrogate, utf8_cp.
  replace ((0xD800 <=? u) && (u <=? 0xDBFF)) with false
    by (symmetry; apply andb_false_iff; left; apply Z.leb_gt; lia).
  replace ((0xDC00 <=? u) && (u <=? 0xDFFF)) with false
    by (symmetry; apply andb_false_iff; left; apply Z.leb_gt; lia).
  replace (u <? 0x80) with true by (symmetry; apply Z.ltb_lt; lia).
  rewrite IH. reflexivity.
Qed.

Lemma utf8_decode_fuel_ascii (n : nat) (b : buffer) :
  (length b <= n)%nat -> Forall (fun u => 0 <= u < 0x80) b -> utf8_decode_fuel n b = b.
Proof.
  revert b. induction n as [|n IH]; intros b Hl Hb.
  - destruct b; [reflexivity | simpl in Hl; lia].
  - destruct Hb as [|u t Hu Ht]; [reflexivity|]. simpl.
    unfold utf8_step. replace (u <? 0x80) with true by (symmetry; apply Z.ltb_lt; lia).
    simpl. rewrite IH; [reflexivity | simpl in Hl; lia | exact Ht].
Qed.

Lemma utf8_decode_ascii (b : buffer) :
  Forall (fun u => 0 <= u < 0x80) b -> utf8_decode b = b.
Proof. intros H. apply utf8_decode_fuel_ascii; [lia | exact H]. Qed.

Lemma printable_ascii (s : jstr) : isPrintable s = true -> Forall (fun u => 0 <= u < 0x80) s.
Proof.
  unfold isPrintable. intros H. apply Forall_forall. intros x Hx.
  rewrite forallb_forall in H. specialize (H x Hx). unfold printable_unit in H.
  repeat match goal with
  | H : _ || _ = true |- _ => apply orb_prop in H; destruct H
  end; zbool; lia.
Qed.

Lemma payload_classify (b1 b2 b3 b4 : Z) (p : buffer) :
  p <> [] ->
  payload (parseBinaryMessage ([b1; b2; b3; b4] ++ p)) = fst (classify b2 p).
Proof.
  intros Hp. destruct p as [|x r]; [congruence|].
  unfold parseBinaryMessage. simpl.
  destruct (classify b2 (x :: r)). reflexivity.
Qed.

End AsciiFrames.
Import AsciiFrames.

(** A non-empty printable ASCII string sent with a [byte2] other than the
    telemetry flag comes back unchanged: as the parsed JSON value when the
    string is JSON text, otherwise as the same string typed ['ascii']. *)
Theorem ascii_string_roundtrip (s : jstr) (b1 b2 b3 b4 : Z) :
  s <> [] -> isPrintable s = true -> b2 mod 256 <> 0x14 ->
  let m := parseBinaryMessage (createBinaryMessage (OutString s) b1 b2 b3 b4) in
  match JSON_parse s with
  | Some v => payload m = v /\ payload_type_of m = Some json
  | None => payload m = JStr s /\ payload_type_of m = Some ascii
  end.
Proof.
  intros Hs Hp Hb m. subst m.
  assert (Ha := printable_ascii s Hp).
  unfold createBinaryMessage. simpl map. rewrite (utf8_encode_ascii s Ha).
  rewrite payload_classify, payload_type_of_classify by exact Hs.
  unfold classify. rewrite to_uint8_mod.
  replace (b2 mod 256 =? 0x14) with false by (symmetry; apply Z.eqb_neq; exact Hb).
  rewrite (utf8_decode_ascii s Ha).
  destruct (JSON_parse s); [split; reflexivity|].
  rewrite (ascii_decode_printable s Hp), Hp. split; reflexivity.
Qed.

Lemma ascii_string_roundtrip_witness :
  js "hello" <> [] /\ isPrintable (js "hello") = true /\ 0x49 mod 256 <> 0x14 /\
  payload (parseBinaryMessage (createBinaryMessage (OutString (js "hello")) 0 0x49 1 7))
  = JStr (js "hello").
Proof.
  split; [discriminate|]. split; [reflexivity|]. split; [discriminate|].
  pose proof (ascii_string_roundtrip (js "hello") 0 0x49 1 7) as H.
  cbv zeta in H. destruct (JSON_parse (js "hello")) eqn:E; [discriminate|].
  apply H; [discriminate | reflexivity | discriminate].
Defined.

(** A telemetry record [deviceId NUL x NUL widgetId NUL widgetValue] of
    non-NUL ASCII text, sent with [byte2 = 0x14], decodes as a
    ['widget_update'] carrying the same three fields. *)
Theorem telemetry_frame_roundtrip (b1 b3 b4 : Z) (d x w v : jstr) :
  Forall (fun u => 0 < u < 0x80) (d ++ x ++ w ++ v) ->
  let m := parseBinaryMessage
             (createBinaryMessage (OutString (d ++ 0 :: x ++ 0 :: w ++ 0 :: v)) b1 0x14 b3 b4) in
  payload_type_of m = Some widget_update /\
  payload m = JObj [(js "widgetId", JStr w); (js "deviceId", JStr d);
                    (js "widgetValue", JStr v)].
Proof.
  intros H m. subst m. rewrite !Forall_app in H. destruct H as (Hd & Hx & Hw & Hv).
  assert (Hn : forall l, Forall (fun u => 0 < u < 0x80) l -> ~ In 0 l).
  { intros l Hl Hin. rewrite Forall_forall in Hl. specialize (Hl 0 Hin). lia. }
  assert (Ha : Forall (fun u => 0 <= u < 0x80) (d ++ 0 :: x ++ 0 :: w ++ 0 :: v)).
  { assert (Hw' : forall l, Forall (fun u => 0 < u < 0x80) l -> Forall (fun u => 0 <= u < 0x80) l)
      by (intros l; apply Forall_impl; intros; lia).
    repeat (apply Forall_app; split; [apply Hw'; assumption|]; constructor; [lia|]).
    apply Hw'; assumption. }
  unfold createBinaryMessage. simpl map. rewrite (utf8_encode_ascii _ Ha).
  assert (Hne : d ++ 0 :: x ++ 0 :: w ++ 0 :: v <> []) by (destruct d; discriminate).
  rewrite payload_classify, payload_type_of_classify by exact Hne.
  replace (to_uint8 0x14) with 0x14 by reflexivity.
  split; [reflexivity|]. unfold classify. rewrite Z.eqb_refl. simpl fst.
  pose proof (widget_segments d x w v [] (Hn d Hd) (Hn x Hx) (Hn w Hw) (Hn v Hv)
                (or_introl eq_refl)) as K.
  rewrite app_nil_r in K. exact K.
Qed.

Lemma telemetry_frame_roundtrip_witness :
  Forall (fun u => 0 < u < 0x80) (js "89349" ++ js "vw" ++ js "5" ++ js "241.29") /\
  payload (parseBinaryMessage
    (createBinaryMessage (OutString (js "89349" ++ 0 :: js "vw" ++ 0 :: js "5" ++ 0 :: js "241.29"))
       0 0x14 0 0)) =
  JObj [(js "widgetId", JStr (js "5")); (js "deviceId", JStr (js "89349"));
        (js "widgetValue", JStr (js "241.29"))].
Proof.
  assert (H : Forall (fun u => 0 < u < 0x80) (js "89349" ++ js "vw" ++ js "5" ++ js "241.29"))
    by (repeat constructor; lia).
  split; [exact H|].
  destruct (telemetry_frame_roundtrip 0 0 0 (js "89349") (js "vw") (js "5") (js "241.29") H)
    as [_ K].
  exact K.
Defined.

(** ** UTF-8 round trip *)

Module Utf8RoundTrip.
Import Bits Utf8Arith ClassifyFacts.

Lemma div_bound (c k n : Z) : 0 < k -> 0 <= c < k * n -> 0 <= c / k < n.
Proof.
  intros Hk Hc. split; [apply Z.div_pos; lia|].
  apply Z.div_lt_upper_bound; lia.
Qed.

Lemma mod64 (x : Z) : 0 <= x mod 64 < 2 ^ 6.
Proof. change (2 ^ 6) with 64. apply Z.mod_pos_bound. lia. Qed.

Lemma cp_form1 (c : Z) : 0 <= c < 0x80 -> utf8_cp c = [c].
Proof. intros H. unfold utf8_cp. replace (c <? 0x80) with true by (symmetry; apply Z.ltb_lt; lia). reflexivity. Qed.

Lemma cp_form2 (c : Z) :
  0x80 <= c < 0x800 -> utf8_cp c = [0xC0 + c / 64; 0x80 + c mod 64].
Proof.
  intros H. unfold utf8_cp.
  replace (c <? 0x80) with false by (symmetry; apply Z.ltb_ge; lia).
  replace (c <? 0x800) with true by (symmetry; apply Z.ltb_lt; lia).
  rewrite Z.shiftr_div_pow2 by lia. masks.
  rewrite (lead_byte 0xC0 (c / 64) 5) by (try reflexivity; try lia;
    change (2 ^ 5) with 32; apply div_bound; lia).
  rewrite cont_byte by (apply Z.mod_pos_bound; lia). reflexivity.
Qed.

Lemma cp_form3 (c : Z) :
  0x800 <= c < 0x10000 ->
  utf8_cp c = [0xE0 + c / 4096; 0x80 + (c / 64) mod 64; 0x80 + c mod 64].
Proof.
  intros H. unfold utf8_cp.
  replace (c <? 0x80) with false by (symmetry; apply Z.ltb_ge; lia).
  replace (c <? 0x800) with false by (symmetry; apply Z.ltb_ge; lia).
  replace (c <? 0x10000) with true by (symmetry; apply Z.ltb_lt; lia).
  rewrite !Z.shiftr_div_pow2 by lia. masks.
  rewrite (lead_byte 0xE0 (c / 4096) 4) by (try reflexivity; try lia;
    change (2 ^ 4) with 16; apply div_bound; lia).
  rewrite !cont_byte by (apply Z.mod_pos_bound; lia). reflexivity.
Qed.

Lemma cp_form4 (c : Z) :
  0x10000 <= c < 0x200000 ->
  utf8_cp c = [0xF0 + c / 262144; 0x80 + (c / 4096) mod 64; 0x80 + (c / 64) mod 64;
               0x80 + c mod 64].
Proof.
  intros H. unfold utf8_cp.
  replace (c <? 0x80) with false by (symmetry; apply Z.ltb_ge; lia).
  replace (c <? 0x800) with false by (symmetry; apply Z.ltb_ge; lia).
  replace (c <? 0x10000) with false by (symmetry; apply Z.ltb_ge; lia).
  rewrite !Z.shiftr_div_pow2 by lia. masks.
  rewrite (lead_byte 0xF0 (c / 262144) 3) by (try reflexivity; try lia;
    change (2 ^ 3) with 8; apply div_bound; lia).
  rewrite !cont_byte by (apply Z.mod_pos_bound; lia). reflexivity.
Qed.

(** Name the quotients and remainders of the goal and its hypotheses. *)
Ltac arith :=
  repeat match goal with
  | |- context [?x mod ?k] =>
      let r := fresh "r" in
      let E := fresh "Edm" in let B := fresh "Bdm" in
      assert (E : x = k * (x / k) + x mod k) by (apply Z.div_mod; lia);
      assert (B : 0 <= x mod k < k) by (apply Z.mod_pos_bound; lia);
      set (r := x mod k) in *; clearbody r
  | |- context [?x / ?k] =>
      let q := fresh "q" in
      let E := fresh "Edm" in let B := fresh "Bdm" in
      assert (E : x = k * (x / k) + x mod k) by (apply Z.div_mod; lia);
      assert (B : 0 <= x mod k < k) by (apply Z.mod_pos_bound; lia);
      set (q := x / k) in *; clearbody q
  end.

Ltac decide_ifs :=
  repeat match goal with
  | |- context [if ?b then _ else _] => destruct b eqn:?
  | H : context [if ?b then _ else _] |- _ => destruct b eqn:?
  end;
  zbool;
  repeat match goal with
  | H : (_ =? _) = false |- _ => apply Z.eqb_neq in H
  | H : in_range _ _ _ = false |- _ =>
      unfold in_range in H; apply andb_false_iff in H; destruct H as [H|H]; zbool
  end.

Lemma digits (c : Z) : 0 <= c ->
  exists q e b d, c = 262144 * q + 4096 * e + 64 * b + d /\ 0 <= q /\
    0 <= e < 64 /\ 0 <= b < 64 /\ 0 <= d < 64.
Proof.
  intros Hc. exists (c / 64 / 64 / 64), ((c / 64 / 64) mod 64), ((c / 64) mod 64), (c mod 64).
  pose proof (Z.div_mod c 64 ltac:(lia)). pose proof (Z.mod_pos_bound c 64 ltac:(lia)).
  pose proof (Z.div_mod (c / 64) 64 ltac:(lia)).
  pose proof (Z.mod_pos_bound (c / 64) 64 ltac:(lia)).
  pose proof (Z.div_mod (c / 64 / 64) 64 ltac:(lia)).
  pose proof (Z.mod_pos_bound (c / 64 / 64) 64 ltac:(lia)).
  assert (0 <= c / 64 / 64 / 64) by (repeat apply Z.div_pos; lia).
  lia.
Qed.

Lemma cp_digits3 (c a b d : Z) :
  0 <= b < 64 -> 0 <= d < 64 -> c = 4096 * a + 64 * b + d -> 0x800 <= c < 0x10000 ->
  utf8_cp c = [0xE0 + a; 0x80 + b; 0x80 + d].
Proof.
  intros Hb Hd -> H. rewrite cp_form3 by lia.
  replace ((4096 * a + 64 * b + d) / 4096) with a
    by (apply Z.div_unique with (64 * b + d); lia).
  replace ((4096 * a + 64 * b + d) / 64) with (64 * a + b)
    by (apply Z.div_unique with d; lia).
  replace ((64 * a + b) mod 64) with b by (apply Z.mod_unique with a; lia).
  replace ((4096 * a + 64 * b + d) mod 64) with d
    by (apply Z.mod_unique with (64 * a + b); lia).
  reflexivity.
Qed.

Lemma cp_digits4 (c a e b d : Z) :
  0 <= e < 64 -> 0 <= b < 64 -> 0 <= d < 64 ->
  c = 262144 * a + 4096 * e + 64 * b + d -> 0x10000 <= c < 0x200000 ->
  utf8_cp c = [0xF0 + a; 0x80 + e; 0x80 + b; 0x80 + d].
Proof.
  intros He Hb Hd -> H. rewrite cp_form4 by lia.
  replace ((262144 * a + 4096 * e + 64 * b + d) / 262144) with a
    by (apply Z.div_unique with (4096 * e + 64 * b + d); lia).
  replace ((262144 * a + 4096 * e + 64 * b + d) / 4096) with (64 * a + e)
    by (apply Z.div_unique with (64 * b + d); lia).
  replace ((262144 * a + 4096 * e + 64 * b + d) / 64) with (4096 * a + 64 * e + b)
    by (apply Z.div_unique with d; lia).
  replace ((64 * a + e) mod 64) with e by (apply Z.mod_unique with a; lia).
  replace ((4096 * a + 64 * e + b) mod 64) with b
    by (apply Z.mod_unique with (64 * a + e); lia).
  replace ((262144 * a + 4096 * e + 64 * b + d) mod 64) with d
    by (apply Z.mod_unique with (4096 * a + 64 * e + b); lia).
  reflexivity.
Qed.

(** One decoding step reads back a code point from its encoding. *)
Lemma step_cp (c : Z) (r : buffer) :
  0 <= c <= 0x10FFFF -> (c < 0xD800 \/ 0xDFFF < c) ->
  exists b1 t, utf8_cp c = b1 :: t /\ utf8_step b1 (t ++ r) = (cp_units c, r).
Proof.
  intros Hc Hs.
  destruct (Z.lt_ge_cases c 0x80) as [H1|H1].
  - rewrite cp_form1 by lia. do 2 eexists. split; [reflexivity|].
    unfold utf8_step. replace (c <? 0x80) with true by (symmetry; apply Z.ltb_lt; lia).
    unfold cp_units. replace (c <? 0x10000) with true by (symmetry; apply Z.ltb_lt; lia).
    reflexivity.
  - destruct (Z.lt_ge_cases c 0x800) as [H2|H2].
    + rewrite cp_form2 by lia. do 2 eexists. split; [reflexivity|].
      unfold utf8_step. cbn [app]. cbv beta iota zeta. rewrite decode2.
      arith. decide_ifs; try (exfalso; lia);
      f_equal; f_equal; lia.
    + destruct (digits c) as (q & e & b & d & Ec & Hq & He & Hb & Hd); [lia|].
      destruct (Z.lt_ge_cases c 0x10000) as [H3|H3].
      * rewrite (cp_digits3 c (64 * q + e) b d) by lia.
        do 2 eexists. split; [reflexivity|].
        unfold utf8_step. cbn [app]. cbv beta iota zeta. rewrite decode3.
        arith. decide_ifs; try (exfalso; lia);
        f_equal; f_equal; lia.
      * rewrite (cp_digits4 c q e b d) by lia.
        do 2 eexists. split; [reflexivity|].
        unfold utf8_step. cbn [app]. cbv beta iota zeta. rewrite decode4.
        arith. decide_ifs; try (exfalso; lia);
        f_equal; f_equal; lia.
Qed.

(** The fuel of [utf8_decode_fuel] does not matter once it covers the input. *)
Lemma fuel_irrelevant (n m : nat) (b : buffer) :
  (length b <= n)%nat -> (length b <= m)%nat -> utf8_decode_fuel n b = utf8_decode_fuel m b.
Proof.
  revert m b. induction n as [|n IH]; intros m b Hn Hm.
  - destruct b; [destruct m; reflexivity | simpl in Hn; lia].
  - destruct b as [|b1 t]; [destruct m; reflexivity|].
    destruct m as [|m]; [simpl in Hm; lia|]. simpl.
    destruct (utf8_step b1 t) as [u r] eqn:Hs.
    destruct (utf8_step_keeps_ascii _ _ _ _ Hs) as [Hl _].
    f_equal. apply IH; simpl in *; lia.
Qed.

Lemma fuel_enough (n : nat) (b : buffer) :
  (length b <= n)%nat -> utf8_decode_fuel n b = utf8_decode b.
Proof. intros H. apply fuel_irrelevant; [exact H | unfold utf8_decode; lia]. Qed.

(** Decoding the encoding of a scalar value followed by more bytes. *)
Lemma decode_app (c : Z) (rest : buffer) :
  0 <= c <= 0x10FFFF -> (c < 0xD800 \/ 0xDFFF < c) ->
  utf8_decode (utf8_cp c ++ rest) = cp_units c ++ utf8_decode rest.
Proof.
  intros Hc Hs. destruct (step_cp c rest Hc Hs) as (b1 & t & E & S).
  rewrite E. unfold utf8_decode at 1. cbn [app length utf8_decode_fuel].
  rewrite S. f_equal. apply fuel_enough. rewrite length_app. lia.
Qed.

Lemma decode_fffd (rest : buffer) :
  utf8_decode (utf8_cp 0xFFFD ++ rest) = 0xFFFD :: utf8_decode rest.
Proof. apply decode_app; lia. Qed.

(** A surrogate pair is combined into a supplementary code point whose
    code units are the pair again. *)
Lemma pair_cp (u v : Z) :
  is_high_surrogate u = true -> is_low_surrogate v = true ->
  0x10000 <= 0x10000 + Z.shiftl (u - 0xD800) 10 + (v - 0xDC00) <= 0x10FFFF /\
  cp_units (0x10000 + Z.shiftl (u - 0xD800) 10 + (v - 0xDC00)) = [u; v].
Proof.
  intros Hu Hv. unfold is_high_surrogate, is_low_surrogate in *. zbool.
  rewrite Z.shiftl_mul_pow2 by lia. change (2 ^ 10) with 1024.
  split; [lia|]. unfold cp_units.
  replace (0x10000 + (u - 0xD800) * 1024 + (v - 0xDC00) <? 0x10000) with false
    by (symmetry; apply Z.ltb_ge; lia).
  rewrite Z.shiftr_div_pow2 by lia. change 0x3FF with (Z.ones 10).
  rewrite Z.land_ones by lia. change (2 ^ 10) with 1024.
  replace ((0x10000 + (u - 0xD800) * 1024 + (v - 0xDC00) - 0x10000) / 1024) with (u - 0xD800)
    by (apply Z.div_unique with (v - 0xDC00); lia).
  replace ((0x10000 + (u - 0xD800) * 1024 + (v - 0xDC00) - 0x10000) mod 1024) with (v - 0xDC00)
    by (apply Z.mod_unique with (u - 0xD800); lia).
  f_equal; [lia|]. f_equal. lia.
Qed.

(** Encoding a string of 16-bit code units to UTF-8 and decoding it back
    gives the string with every lone surrogate replaced by U+FFFD. *)
Lemma utf8_roundtrip (s : jstr) :
  Forall (fun u => 0 <= u <= 0xFFFF) s -> utf8_decode (utf8_encode s) = toWellFormed s.
Proof.
  intros Hs. remember (length s) as n eqn:En.
  assert (Hn : (length s <= n)%nat) by lia. clear En.
  revert s Hs Hn. induction n as [|n IH]; intros s Hs Hn.
  - destruct s; [reflexivity | simpl in Hn; lia].
  - destruct s as [|u t]; [reflexivity|].
    inversion Hs as [|? ? Hu Ht]; subst. simpl in Hn.
    cbn [utf8_encode toWellFormed].
    destruct (is_high_surrogate u) eqn:Hh.
    + destruct t as [|v t'].
      * rewrite <- (app_nil_r (utf8_cp 0xFFFD)), decode_fffd. reflexivity.
      * inversion Ht as [|? ? Hv Ht']; subst. simpl in Hn.
        destruct (is_low_surrogate v) eqn:Hl.
        -- destruct (pair_cp u v Hh Hl) as [Hr Hc].
           rewrite decode_app by lia. rewrite Hc, IH by (auto; simpl; lia). reflexivity.
        -- rewrite decode_fffd, IH by (auto; simpl; lia). reflexivity.
    + destruct (is_low_surrogate u) eqn:Hl.
      * rewrite decode_fffd, IH by (auto; simpl; lia). reflexivity.
      * unfold is_high_surrogate, is_low_surrogate in Hh, Hl.
        apply andb_false_iff in Hh, Hl.
        rewrite decode_app by (destruct Hh as [Hh|Hh]; destruct Hl as [Hl|Hl]; zbool;
                               rewrite ?Z.leb_gt in *; lia).
        unfold cp_units. replace (u <? 0x10000) with true by (symmetry; apply Z.ltb_lt; lia).
        rewrite IH by (auto; simpl; lia). reflexivity.
Qed.

Lemma utf8_cp_nonempty (c : Z) : utf8_cp c <> [].
Proof. unfold utf8_cp. repeat destruct (_ <? _); discriminate. Qed.

Lemma utf8_encode_nonempty (s : jstr) : s <> [] -> utf8_encode s <> [].
Proof.
  destruct s as [|u t]; [congruence|]. intros _. cbn [utf8_encode].
  assert (K : forall c r, utf8_cp c ++ r <> []).
  { intros c r E. apply app_eq_nil in E. destruct E as [E _]. exact (utf8_cp_nonempty c E). }
  destruct (is_high_surrogate u); [destruct t as [|v t']; [apply utf8_cp_nonempty|]
                                  ; destruct (is_low_surrogate v); apply K|].
  destruct (is_low_surrogate u); apply K.
Qed.

End Utf8RoundTrip.
Import Utf8RoundTrip.

(** A non-empty string sent with a [byte2] other than the telemetry flag is
    read back through UTF-8 with each lone surrogate replaced by U+FFFD:
    when that well-formed string is JSON text, the frame decodes to the
    parsed value, typed ['json']. *)
Theorem string_frame_json (s : jstr) (b1 b2 b3 b4 : Z) (v : jsval) :
  s <> [] -> Forall (fun u => 0 <= u <= 0xFFFF) s -> b2 mod 256 <> 0x14 ->
  JSON_parse (toWellFormed s) = Some v ->
  let m := parseBinaryMessage (createBinaryMessage (OutString s) b1 b2 b3 b4) in
  payload m = v /\ payload_type_of m = Some json.
Proof.
  intros Hs Hu Hb Hj m. subst m.
  unfold createBinaryMessage. simpl map.
  assert (Hne := utf8_encode_nonempty s Hs).
  rewrite payload_classify, payload_type_of_classify by exact Hne.
  unfold classify. rewrite to_uint8_mod.
  replace (b2 mod 256 =? 0x14) with false by (symmetry; apply Z.eqb_neq; exact Hb).
  rewrite (utf8_roundtrip s Hu), Hj. split; reflexivity.
Qed.

Lemma string_frame_json_witness :
  [0x22; 0xD800; 0x22] <> [] /\ Forall (fun u => 0 <= u <= 0xFFFF) [0x22; 0xD800; 0x22] /\
  0x30 mod 256 <> 0x14 /\ JSON_parse (toWellFormed [0x22; 0xD800; 0x22]) = Some (JStr [0xFFFD]) /\
  payload (parseBinaryMessage (createBinaryMessage (OutString [0x22; 0xD800; 0x22]) 0 0x30 0 0))
  = JStr [0xFFFD].
Proof.
  assert (Hf : Forall (fun u => 0 <= u <= 0xFFFF) [0x22; 0xD800; 0x22]) by (repeat constructor; lia).
  assert (Hj : JSON_parse (toWellFormed [0x22; 0xD800; 0x22]) = Some (JStr [0xFFFD]))
    by reflexivity.
  split; [discriminate|]. split; [exact Hf|]. split; [discriminate|]. split; [exact Hj|].
  exact (proj1 (string_frame_json [0x22; 0xD800; 0x22] 0 0x30 0 0 (JStr [0xFFFD])
                  ltac:(discriminate) Hf ltac:(discriminate) Hj)).
Defined.


Module HashMore.
Import Hash ClassifyFacts.

Lemma round_length (st : list Z) (kw : Z * Z) : length (round st kw) = length st.
Proof.
  destruct st as [|a [|b [|c [|d [|e [|f [|g [|h [|i r]]]]]]]]]; reflexivity.
Qed.

Lemma fold_round_length (l : list (Z * Z)) (st : list Z) :
  length (fold_left round l st) = length st.
Proof.
  revert st. induction l as [|kw l IH]; intros st; [reflexivity|].
  simpl. rewrite IH. apply round_length.
Qed.

Lemma compress_length (hv block : list Z) :
  length hv = 8%nat -> length (compress hv block) = 8%nat.
Proof.
  intros H. unfold compress. rewrite length_map, length_combine, fold_round_length, H.
  reflexivity.
Qed.

Lemma fold_compress_length (bl : list (list Z)) (hv : list Z) :
  length hv = 8%nat -> length (fold_left compress bl hv) = 8%nat.
Proof.
  revert hv. induction bl as [|b bl IH]; intros hv H; [exact H|].
  simpl. apply IH, compress_length, H.
Qed.

Lemma be_bytes_length (n : nat) (x : Z) : length (be_bytes n x) = n.
Proof. unfold be_bytes. rewrite length_map, length_seq. reflexivity. Qed.

Lemma be_bytes_range (n : nat) (x y : Z) : In y (be_bytes n x) -> 0 <= y < 256.
Proof.
  unfold be_bytes. intros H. apply in_map_iff in H. destruct H as (i & <- & _).
  change 255 with (Z.ones 8). rewrite Z.land_ones by lia.
  apply Z.mod_pos_bound. lia.
Qed.

Lemma flat_map_be_length (l : list Z) :
  length (flat_map (be_bytes 4) l) = (4 * length l)%nat.
Proof.
  induction l as [|x l IH]; [reflexivity|].
  cbn [flat_map]. rewrite length_app, be_bytes_length, IH. cbn [length]. lia.
Qed.

(** SHA-256 always gives 32 bytes. *)
Lemma sha256_bytes (msg : list Z) :
  length (sha256 msg) = 32%nat /\ Forall (fun y => 0 <= y < 256) (sha256 msg).
Proof.
  unfold sha256. split.
  - rewrite flat_map_be_length, fold_compress_length; reflexivity.
  - apply Forall_forall. intros y Hy. apply in_flat_map in Hy.
    destruct Hy as (x & _ & Hx). exact (be_bytes_range _ _ _ Hx).
Qed.

Lemma b64_char_alphabet (n : Z) : 0 <= n -> b64_alphabet (b64_char n) = true.
Proof.
  intros Hn. unfold b64_char, b64_alphabet, in_range.
  repeat match goal with |- context [if ?b then _ else _] => destruct b eqn:? end;
  zbool; rewrite !orb_true_iff, !andb_true_iff, !Z.leb_le, !Z.eqb_eq;
  repeat match goal with
  | H : (_ =? _) = false |- _ => apply Z.eqb_neq in H
  end; lia.
Qed.

Ltac nonneg :=
  repeat first
    [ apply Z.shiftr_nonneg | apply Z.shiftl_nonneg
    | apply Z.lor_nonneg; split | apply Z.land_nonneg; right; lia | lia ].

(** [base64] of [3k+2] bytes: [4k+3] alphabet characters and one [=]. *)
Lemma base64_shape (k : nat) (l : list Z) :
  Forall (fun x => 0 <= x) l -> length l = (3 * k + 2)%nat ->
  exists body, base64 l = body ++ [61] /\ length body = (4 * k + 3)%nat /\
               forallb b64_alphabet body = true.
Proof.
  revert l. induction k as [|k IH]; intros l Hl Hn.
  - destruct l as [|x [|y [|z r]]]; simpl in Hn; try lia.
    inversion Hl as [|? ? Hx Hy]; inversion Hy; subst.
    refine (ex_intro _ [_; _; _] _). split; [reflexivity|]. split; [reflexivity|].
    cbn [forallb]. rewrite !b64_char_alphabet by nonneg. reflexivity.
  - destruct l as [|x [|y [|z r]]]; simpl in Hn; try lia.
    inversion Hl as [|? ? Hx Hy]; inversion Hy as [|? ? Hy' Hz]; inversion Hz; subst.
    destruct (IH r) as (body & E & Hb & Ha); [assumption | lia|].
    cbn [base64]. rewrite E.
    eexists. rewrite app_assoc. split; [reflexivity|]. split.
    + rewrite length_app, Hb. simpl. lia.
    + rewrite forallb_app, Ha. cbn [forallb].
      rewrite !b64_char_alphabet by nonneg. reflexivity.
Qed.

End HashMore.

(** [calculateHash] always returns 44 characters: 43 characters of the
    standard base64 alphabet followed by a single [=] padding character. *)
Theorem calculateHash_format (lower : jstr -> jstr) (email password : jstr) :
  exists body, Hash.calculateHash lower email password = body ++ [61] /\
               length body = 43%nat /\ forallb b64_alphabet body = true.
Proof.
  unfold Hash.calculateHash.
  destruct (HashMore.sha256_bytes (utf8_encode password ++
              Hash.sha256 (utf8_encode (lower email)))) as [Hl Hr].
  apply (HashMore.base64_shape 10).
  - eapply Forall_impl; [|exact Hr]. intros y Hy; cbv beta in Hy |- *; destruct Hy; assumption.
  - rewrite Hl. reflexivity.
Qed.

(** ** The session: socket, keepalive, exchanges and maps *)

Import CodecFacts.

Module SessionMore.
Import Protocol Client SessionFacts.

Section Keep.
Variable P : Client -> Prop.

Lemma pr_ret {A : Type} (a : A) : preserves P (ret a).
Proof. intros c H. exact H. Qed.
Lemma pr_throw {A : Type} (e : jsval) : preserves (A := A) P (throw e).
Proof. intros c H. exact H. Qed.
Lemma pr_gets {A : Type} (f : Client -> A) : preserves P (gets f).
Proof. intros c H. exact H. Qed.
Lemma pr_pending {A : Type} : preserves (A := A) P pending.
Proof. intros c H. exact H. Qed.
Lemma pr_lift {A : Type} (o : option A) : preserves P (lift o).
Proof. destruct o; intros c H; exact H. Qed.
Lemma pr_modify (f : Client -> Client) :
  (forall c, P c -> P (f c)) -> preserves P (modify f).
Proof. intros Hf c H. exact (Hf c H). Qed.

Lemma pr_bind {A B : Type} (m : M A) (k : A -> M B) :
  preserves P m -> (forall a, preserves P (k a)) -> preserves P (bind m k).
Proof.
  intros Hm Hk c H. unfold bind.
  specialize (Hm c H). destruct (m c) as [[a| |] c'] eqn:E; simpl in *;
    [apply Hk|..]; exact Hm.
Qed.

Lemma pr_forM_ {A : Type} (l : list A) (f : A -> M unit) :
  (forall x, preserves P (f x)) -> preserves P (forM_ l f).
Proof.
  intros Hf. induction l as [|x r IH]; simpl.
  - apply pr_ret.
  - apply pr_bind; [apply Hf | intros _; exact IH].
Qed.

End Keep.

Create HintDb socket.
#[local] Hint Resolve pr_ret pr_throw pr_gets pr_pending pr_lift : socket.

(** Take an operation apart along its binds and branches; [modify] steps
    are left to [tac]. *)
Ltac pr_solve tac :=
  repeat first
    [ solve [eauto with socket]
    | apply pr_bind; [|intro]
    | apply pr_forM_; intro
    | match goal with
      | |- preserves _ (match ?x with _ => _ end) => destruct x
      | |- preserves _ (modify _) => apply pr_modify; intros ? ?; tac
      end ].

(** *** Once the socket exists it stays *)

Local Abbreviation has_ws := (fun c : Client => ws c <> None).

Lemma ws_now clock : preserves has_ws (now clock).
Proof. intros c H. exact H. Qed.
Lemma ws_listen : preserves has_ws listen.
Proof.
  intros c H. unfold listen in *. destruct (ws c) eqn:E; [|contradiction].
  destruct (arrivals c) as [|[]]; simpl; rewrite E; exact H.
Qed.
Lemma ws_sendMessage p b1 b2 b3 b4 : preserves has_ws (sendMessage p b1 b2 b3 b4).
Proof.
  intros c H.  destruct (ws c) as [s|] eqn:E; [|contradiction].
  destruct (sendMessage_ws_some p b1 b2 b3 b4 c s E) as [s' E']. rewrite E'. discriminate.
Qed.
#[local] Hint Resolve ws_now ws_listen ws_sendMessage : socket.

Ltac ws_solve := pr_solve assumption.

Lemma ws_keepalive clock : preserves has_ws (keepalive clock).
Proof. unfold keepalive. ws_solve. Qed.
Lemma ws_issueInitialization : preserves has_ws issueInitialization.
Proof. unfold issueInitialization. ws_solve. Qed.
Lemma ws_login u p lw : preserves has_ws (login u p lw).
Proof. unfold login. ws_solve. Qed.
Lemma ws_queryDevices : preserves has_ws queryDevices.
Proof. unfold queryDevices. ws_solve. Qed.
Lemma ws_requestChargingStatus d : preserves has_ws (requestChargingStatus d).
Proof. unfold requestChargingStatus. ws_solve. Qed.
Lemma ws_extractWidgetMappings i page : preserves has_ws (extractWidgetMappings i page).
Proof. unfold extractWidgetMappings, upd_id_map, upd_name_map. ws_solve. Qed.
#[local] Hint Resolve ws_keepalive ws_issueInitialization ws_login ws_queryDevices
  ws_requestChargingStatus ws_extractWidgetMappings : socket.

Lemma ws_steady_state clock n : preserves has_ws (steady_state clock n).
Proof. induction n; simpl; ws_solve. Qed.
#[local] Hint Resolve ws_steady_state : socket.

Lemma try_close (m : M unit) (c : Client) :
  preserves has_ws m -> has_ws c -> fst (try_finally m close_ws c) <> Pending ->
  exists ob, ws (snd (try_finally m close_ws c)) = Some (mkSocket CLOSED ob).
Proof.
  intros Hm Hc Hp. unfold try_finally in *. specialize (Hm c Hc).
  destruct (m c) as [[a| |] c']; simpl in Hm, Hp |- *; [| |contradiction];
    unfold close_ws, modify; simpl;
    (destruct (ws c'); [eexists; reflexivity | contradiction]).
Qed.

Lemma run_opened u p lower clock justScan iters :
  exists m, preserves has_ws m /\
  forall c, run u p lower clock Opened justScan iters c =
            try_finally m close_ws (set_ws (Some (mkSocket OPEN [])) c).
Proof.
  eexists. split; cycle 1.
  - intros c. reflexivity.
  - ws_solve.
Qed.

End SessionMore.

(** [run] closes the socket it opened on every exit through its
    [try/finally], normal or by an exception.  When the socket reports an
    error, the promise of [connect] rejects with the error [ws] reported
    before the [try] is entered: [run] rejects with that error, and the
    socket is the one [ws] closed; nothing was sent. *)
Theorem run_socket_cleanup (u p : option jstr) (lower : jstr -> jstr) (clock : nat -> Z)
  (justScan : bool) (iters : nat) (c : Client) :
  (fst (run u p lower clock Opened justScan iters c) <> Pending ->
   exists ob, ws (snd (run u p lower clock Opened justScan iters c)) =
              Some (mkSocket CLOSED ob)) /\
  (forall error, run u p lower clock (SocketError error) justScan iters c =
                 (Throw error, set_ws (Some (mkSocket CLOSED [])) c)).
Proof.
  split; [|reflexivity].
  destruct (SessionMore.run_opened u p lower clock justScan iters) as (m & Hm & E).
  rewrite !E. apply SessionMore.try_close; [exact Hm | discriminate].
Qed.

Lemma run_socket_cleanup_witness :
  (fst (run Scenario.creds Scenario.pass Hash.ascii_lower Scenario.still_clock Opened true 0
          (initial 0 [Scenario.srv_init])) <> Pending /\
   exists ob, ws (snd (run Scenario.creds Scenario.pass Hash.ascii_lower Scenario.still_clock
                                Opened true 0 (initial 0 [Scenario.srv_init]))) =
              Some (mkSocket CLOSED ob)) /\
  fst (run Scenario.creds Scenario.pass Hash.ascii_lower Scenario.still_clock
         (SocketError (Error (js "connect ECONNREFUSED 127.0.0.1:443"))) true 0
         (initial 0 [])) = Throw (Error (js "connect ECONNREFUSED 127.0.0.1:443")).
Proof.
  assert (H : fst (run Scenario.creds Scenario.pass Hash.ascii_lower Scenario.still_clock Opened
                     true 0 (initial 0 [Scenario.srv_init])) <> Pending)
    by (vm_compute; discriminate).
  split; [split; [exact H|]|].
  - exact (proj1 (run_socket_cleanup Scenario.creds Scenario.pass Hash.ascii_lower
                    Scenario.still_clock true 0 (initial 0 [Scenario.srv_init])) H).
  - rewrite (proj2 (run_socket_cleanup Scenario.creds Scenario.pass Hash.ascii_lower
                      Scenario.still_clock true 0 (initial 0 []))).
    reflexivity.
Defined.

Module MapFrame.
Import SessionMore.

Lemma map_get_set_other {V : Type} (i j : Z) (v : V) (m : list (Z * V)) :
  j <> i -> map_get Z.eqb j (map_set Z.eqb i v m) = map_get Z.eqb j m.
Proof.
  intros Hji. induction m as [|[k w] r IH]; simpl.
  - replace (i =? j) with false by (symmetry; apply Z.eqb_neq; congruence). reflexivity.
  - destruct (k =? i) eqn:Ki; simpl.
    + apply Z.eqb_eq in Ki. subst k.
      replace (i =? j) with false by (symmetry; apply Z.eqb_neq; congruence). reflexivity.
    + destruct (k =? j); [reflexivity | exact IH].
Qed.


#[local] Hint Resolve pr_ret pr_throw pr_gets pr_pending pr_lift : socket.

Lemma maps_frame (i j : Z) (page : jsval) x y :
  j <> i ->
  preserves (fun c => map_get Z.eqb j (widgetIdMap c) = x /\
                      map_get Z.eqb j (widgetNameMap c) = y)
    (extractWidgetMappings i page).
Proof.
  intros Hji. unfold extractWidgetMappings, upd_id_map, upd_name_map.
  pr_solve ltac:(cbn beta; simpl; rewrite ?map_get_set_other by exact Hji; assumption).
Qed.

End MapFrame.

(** [extractWidgetMappings(deviceIdx, page)] only writes the maps of
    [deviceIdx]: the id map and the name map of every other device index
    are left as they were, also when the extraction throws part way. *)
Theorem extractWidgetMappings_other_devices (i j : Z) (page : jsval) (c : Client) :
  j <> i ->
  map_get Z.eqb j (widgetIdMap (snd (extractWidgetMappings i page c))) =
  map_get Z.eqb j (widgetIdMap c) /\
  map_get Z.eqb j (widgetNameMap (snd (extractWidgetMappings i page c))) =
  map_get Z.eqb j (widgetNameMap c).
Proof.
  intros Hji. apply (MapFrame.maps_frame i j page _ _ Hji c). split; reflexivity.
Qed.

Lemma extractWidgetMappings_other_devices_witness :
  let page := JObj [(js "dashboard", JObj [(js "widgets",
                JArr [JObj [(js "modules",
                  JArr [JObj [(js "displayDataStreams", JArr [Scenario.charging_power])]])]])])] in
  let c := set_widgetIdMap [(1, [(js "7", JNull)])] (initial 0 []) in
  1 <> 0 /\
  map_get Z.eqb 1 (widgetIdMap (snd (extractWidgetMappings 0 page c))) = Some [(js "7", JNull)].
Proof.
  intros page c. split; [lia|].
  rewrite (proj1 (extractWidgetMappings_other_devices 0 1 page c ltac:(lia))).
  reflexivity.
Defined.

(** [keepalive()] reads the clock and, while less than 15 s have passed
    since the last keepalive, does nothing else.  Once 15 s have passed on
    an open socket it reads the clock again, makes that the new timer,
    sends the 4-byte frame [00 06 00 n] with the message counter [n]
    (modulo 256) as fourth byte, increments the counter, and consumes one
    arrival with [listen]. *)
Theorem keepalive_schedule (clock : nat -> Z) (c : Client) :
  (clock (clock_reads c) - keepaliveTimer c < 15000 ->
   keepalive clock c = (Ok tt, set_clock_reads (S (clock_reads c)) c)) /\
  (forall ob, 15000 <= clock (clock_reads c) - keepaliveTimer c ->
   ws c = Some (mkSocket OPEN ob) ->
   let c' := snd (keepalive clock c) in
   fst (keepalive clock c) = Ok tt /\
   ws c' = Some (mkSocket OPEN (ob ++ [[0; 6; 0; messageCounter c mod 256]])) /\
   messageCounter c' = messageCounter c + 1 /\
   keepaliveTimer c' = clock (S (clock_reads c)) /\
   clock_reads c' = S (S (clock_reads c)) /\
   arrivals c' = tl (arrivals c)).
Proof.
  split.
  - intros H. unfold keepalive, bind, now, gets. simpl.
    replace (15000 <=? clock (clock_reads c) - keepaliveTimer c) with false
      by (symmetry; apply Z.leb_gt; lia).
    reflexivity.
  - intros ob H Hw c'. subst c'.
    destruct c as [w u d dp n im nm kt em ar cr]; simpl in *; subst w.
    unfold keepalive, bind, now, gets. simpl.
    replace (15000 <=? clock cr - kt) with true by (symmetry; apply Z.leb_le; lia).
    unfold listen. simpl. destruct ar as [|[] r]; simpl;
    rewrite to_uint8_mod; repeat split.
Qed.

Lemma keepalive_schedule_witness :
  (20000 * Z.of_nat (clock_reads (initial 0 []))
     - keepaliveTimer (initial 0 []) < 15000 /\
   keepalive (fun k => 20000 * Z.of_nat k) (initial 0 []) =
   (Ok tt, set_clock_reads 1 (initial 0 []))) /\
  (let c := set_ws (Some (mkSocket OPEN [])) (initial (-15000) [Silence]) in
   15000 <= 20000 * Z.of_nat (clock_reads c) - keepaliveTimer c /\
   ws (snd (keepalive (fun k => 20000 * Z.of_nat k) c)) =
   Some (mkSocket OPEN [[0; 6; 0; 0]])).
Proof.
  split.
  - assert (H : 20000 * Z.of_nat (clock_reads (initial 0 []))
                  - keepaliveTimer (initial 0 []) < 15000) by (simpl; lia).
    split; [exact H|].
    exact (proj1 (keepalive_schedule (fun k => 20000 * Z.of_nat k) (initial 0 [])) H).
  - intros c.
    assert (H : 15000 <= 20000 * Z.of_nat (clock_reads c) - keepaliveTimer c) by (simpl; lia).
    split; [exact H|].
    exact (proj1 (proj2 (proj2 (keepalive_schedule (fun k => 20000 * Z.of_nat k) c) [] H
                              eq_refl))).
Defined.

(** [requestChargingStatus(deviceId)] throws "Cannot request charging
    status before websocket is created" when there is no socket and then
    changes nothing.  On an open socket it sends the device id as a string
    frame [00 49 01 n], then the page request [{pageId: '17948', deviceId,
    dashboardPageId: null}] as [01 04 01 n+1], consumes two arrivals, and
    returns the payload of the second one. *)
Theorem requestChargingStatus_exchange (d : jsval) (c : Client) :
  (ws c = None ->
   requestChargingStatus d c =
   (Throw (Error (js "Cannot request charging status before websocket is created")), c)) /\
  (forall ob a1 data r,
   ws c = Some (mkSocket OPEN ob) -> arrivals c = a1 :: Message data :: r ->
   let n := messageCounter c in
   let c' := snd (requestChargingStatus d c) in
   fst (requestChargingStatus d c) = Ok (payload (parseBinaryMessage data)) /\
   ws c' = Some (mkSocket OPEN
     (ob ++ [createBinaryMessage (OutString (js_String d)) 0x00 0x49 0x01 n;
             createBinaryMessage (OutRecord [(js "pageId", JStr (js "17948"));
                                             (js "deviceId", JStr (js_String d));
                                             (js "dashboardPageId", JNull)])
               0x01 0x04 0x01 (n + 1)])) /\
   messageCounter c' = n + 2 /\ arrivals c' = r).
Proof.
  split.
  - intros Hw. unfold requestChargingStatus, bind, gets. rewrite Hw. reflexivity.
  - intros ob a1 data r Hw Ha n c'. subst n c'.
    destruct c as [w u dv dp n im nm kt em ar cr]; simpl in *; subst w ar.
    unfold requestChargingStatus, bind, gets, sendMessage, listen, ret. simpl.
    destruct a1; simpl; rewrite <- app_assoc; repeat split; lia.
Qed.

Lemma requestChargingStatus_exchange_witness :
  (ws (initial 0 []) = None /\
   requestChargingStatus (JNum (js "89349")) (initial 0 []) =
   (Throw (Error (js "Cannot request charging status before websocket is created")),
    initial 0 [])) /\
  (let data := createBinaryMessage (OutRecord [(js "ok", JBool true)]) 1 4 1 2 in
   let c := set_ws (Some (mkSocket OPEN [])) (initial 0 [Silence; Message data]) in
   ws c = Some (mkSocket OPEN []) /\ arrivals c = Silence :: Message data :: [] /\
   fst (requestChargingStatus (JNum (js "89349")) c) = Ok (JObj [(js "ok", JBool true)])).
Proof.
  split.
  - split; [reflexivity|].
    exact (proj1 (requestChargingStatus_exchange (JNum (js "89349")) (initial 0 [])) eq_refl).
  - intros data c. split; [reflexivity|]. split; [reflexivity|].
    rewrite (proj1 (proj2 (requestChargingStatus_exchange (JNum (js "89349")) c)
                      [] Silence data [] eq_refl eq_refl)).
    vm_compute. reflexivity.
Defined.

Module Steps.
Import SessionMore.

Lemma bind_eq {A B : Type} (m : M A) (k : A -> M B) (c : Client) (a : A) (c' : Client) :
  m c = (Ok a, c') -> bind m k c = k a c'.
Proof. intros E. unfold bind. rewrite E. reflexivity. Qed.

Lemma bind_lift_some {A B : Type} (a : A) (k : A -> M B) : bind (lift (Some a)) k = k a.
Proof. reflexivity. Qed.

Lemma sendMessage_devices p b1 b2 b3 b4 c :
  devices (snd (sendMessage p b1 b2 b3 b4 c)) = devices c.
Proof.
  unfold sendMessage. destruct (ws c); [|reflexivity].
  destruct b4; destruct (socket_send _ _); reflexivity.
Qed.

Lemma listen_message (c : Client) (data : buffer) (r : list Arrival) :
  ws c <> None -> arrivals c = Message data :: r ->
  listen c = (Ok (parseBinaryMessage data), set_arrivals r c).
Proof. intros Hw Ha. unfold listen. destruct (ws c); [|contradiction]. rewrite Ha. reflexivity. Qed.

Lemma bind_ok {A B : Type} (m : M A) (k : A -> M B) (c : Client) (b : B) :
  fst (bind m k c) = Ok b -> exists a c', m c = (Ok a, c') /\ bind m k c = k a c'.
Proof.
  unfold bind. destruct (m c) as [[a| |] c']; simpl; intros H; [eauto|discriminate|discriminate].
Qed.

End Steps.

(** [queryDevices()], when the response's [docs] is an array and the call
    completes normally, appends to [devices] the ['1'] entry of each doc,
    in order, after the devices already there. *)
Theorem queryDevices_appends (c : Client) (data : buffer) (r : list Arrival) (ds : list jsval) :
  ws c <> None -> arrivals c = Message data :: r ->
  js_get (payload (parseBinaryMessage data)) (js "docs") = Some (JArr ds) ->
  fst (queryDevices c) = Ok tt ->
  exists details, Forall2 (fun d x => js_get d (js "1") = Some x) ds details /\
    devices (snd (queryDevices c)) = devices c ++ details.
Proof.
  intros Hw Ha Hd.
  unfold queryDevices.
  rewrite (Steps.bind_eq _ _ c _ _ (sendMessage_eq _ _ _ _ _ c)).
  destruct (ws c) as [s|] eqn:Es; [|contradiction].
  destruct (sendMessage_ws_some (OutRecord device_query) 1 27 0 None c s Es) as [s' Es'].
  assert (Hl : listen (snd (sendMessage (OutRecord device_query) 1 27 0 None c)) =
               (Ok (parseBinaryMessage data),
                set_arrivals r (snd (sendMessage (OutRecord device_query) 1 27 0 None c)))).
  { apply Steps.listen_message; [congruence | rewrite sendMessage_arrivals; exact Ha]. }
  rewrite (Steps.bind_eq _ _ _ _ _ Hl).
  rewrite Hd, Steps.bind_lift_some. cbn [js_iter]. rewrite Steps.bind_lift_some.
  assert (Hdev : devices (set_arrivals r (snd (sendMessage (OutRecord device_query) 1 27 0 None c)))
                 = devices c) by apply Steps.sendMessage_devices.
  rewrite <- Hdev. clear Hdev Hd.
  generalize (set_arrivals r (snd (sendMessage (OutRecord device_query) 1 27 0 None c))) as c1.
  induction ds as [|x ds IH]; intros c1 Hok.
  - exists []. split; [constructor|]. rewrite app_nil_r. reflexivity.
  - cbn [forM_] in *.
    destruct (Steps.bind_ok _ _ _ _ Hok) as ([] & c2 & E2 & E3). rewrite E3 in Hok |- *.
    cbv [bind lift throw ret modify] in E2.
    destruct (js_get x (js "1")) as [dd|] eqn:E1; [|congruence].
    destruct (js_get dd (js "name")); [|congruence].
    destruct (js_get dd (js "deviceId")); [|congruence].
    injection E2 as <-.
    destruct (IH _ Hok) as (details & F & E).
    exists (dd :: details). split; [constructor; assumption|].
    rewrite E. cbn [devices set_devices]. rewrite <- app_assoc. reflexivity.
Qed.

Lemma queryDevices_appends_witness :
  let data := createBinaryMessage
                (OutRecord [(js "docs", JArr [JArr [JNum (js "0"); Scenario.home_charger]])])
                0x01 0x1b 0x00 0x00 in
  let c := set_ws (Some (mkSocket OPEN [])) (initial 0 [Message data]) in
  ws c <> None /\ arrivals c = Message data :: [] /\
  js_get (payload (parseBinaryMessage data)) (js "docs") =
    Some (JArr [JArr [JNum (js "0"); Scenario.home_charger]]) /\
  fst (queryDevices c) = Ok tt /\
  exists details, Forall2 (fun d x => js_get d (js "1") = Some x)
                    [JArr [JNum (js "0"); Scenario.home_charger]] details /\
    devices (snd (queryDevices c)) = devices c ++ details.
Proof.
  intros data c.
  assert (H1 : ws c <> None) by discriminate.
  assert (H2 : arrivals c = Message data :: []) by reflexivity.
  assert (H3 : js_get (payload (parseBinaryMessage data)) (js "docs") =
               Some (JArr [JArr [JNum (js "0"); Scenario.home_charger]])) by (vm_compute; reflexivity).
  assert (H4 : fst (queryDevices c) = Ok tt) by (vm_compute; reflexivity).
  split; [exact H1|]. split; [exact H2|]. split; [exact H3|]. split; [exact H4|].
  exact (queryDevices_appends c data [] _ H1 H2 H3 H4).
Defined.

(** [login()] without a user name or password throws "User and password
    must be set" before sending anything.  With both, on an open socket,
    it sends the frame [00 02 00 03] carrying [{email, hash:
    calculateHash(email, password), clientType, version, locale}], consumes
    one arrival and, when its payload is not null, stores that payload as
    [user]; nothing else changes. *)
Theorem login_exchange (u p : option jstr) (lower : jstr -> jstr) (c : Client) :
  ((u = None \/ p = None) ->
   login u p lower c = (Throw (Error (js "User and password must be set")), c)) /\
  (forall e pw ob data r,
   u = Some e -> p = Some pw -> ws c = Some (mkSocket OPEN ob) ->
   arrivals c = Message data :: r -> payload (parseBinaryMessage data) <> JNull ->
   login u p lower c =
   (Ok tt, set_user (payload (parseBinaryMessage data))
             (set_arrivals r (set_ws (Some (mkSocket OPEN (ob ++
               [createBinaryMessage
                  (OutRecord ((js "email", JStr e) :: (js "hash", JStr (Hash.calculateHash lower e pw))
                              :: version_fields)) 0x00 0x02 0x00 0x03]))) c)))).
Proof.
  split.
  - intros [-> | ->]; [reflexivity|]. destruct u; reflexivity.
  - intros e pw ob data r -> -> Hw Ha Hp.
    destruct c as [w us dv dp n im nm kt em ar cr]; simpl in *; subst w ar.
    unfold login, bind, sendMessage, listen, modify. simpl.
    destruct (payload (parseBinaryMessage data)) eqn:E; try reflexivity.
    contradiction.
Qed.

Lemma login_exchange_witness :
  ((Some (js "user@example.com") = None \/ (None : option jstr) = None) /\
   login (Some (js "user@example.com")) None Hash.ascii_lower (initial 0 []) =
   (Throw (Error (js "User and password must be set")), initial 0 [])) /\
  (let data := createBinaryMessage (OutRecord [(js "user", JStr (js "u1"))]) 0x00 0x02 0x00 0x03 in
   let c := set_ws (Some (mkSocket OPEN [])) (initial 0 [Message data]) in
   ws c = Some (mkSocket OPEN []) /\ arrivals c = Message data :: [] /\
   payload (parseBinaryMessage data) <> JNull /\
   fst (login (Some (js "user@example.com")) (Some (js "pw")) Hash.ascii_lower c) = Ok tt /\
   user (snd (login (Some (js "user@example.com")) (Some (js "pw")) Hash.ascii_lower c)) =
   JObj [(js "user", JStr (js "u1"))]).
Proof.
  split.
  - assert (H : Some (js "user@example.com") = None \/ (None : option jstr) = None)
      by (right; reflexivity).
    split; [exact H|].
    exact (proj1 (login_exchange (Some (js "user@example.com")) None Hash.ascii_lower
                    (initial 0 [])) H).
  - intros data c.
    assert (H1 : ws c = Some (mkSocket OPEN [])) by reflexivity.
    assert (H2 : arrivals c = Message data :: []) by reflexivity.
    assert (H3 : payload (parseBinaryMessage data) <> JNull) by (vm_compute; discriminate).
    split; [exact H1|]. split; [exact H2|]. split; [exact H3|].
    rewrite (proj2 (login_exchange (Some (js "user@example.com")) (Some (js "pw"))
                      Hash.ascii_lower c) _ _ [] data [] eq_refl eq_refl H1 H2 H3).
    split; [reflexivity|]. vm_compute. reflexivity.
Defined.

(** ** Record frames: [JSON.stringify] read back by [JSON.parse] *)

Module JsonRoundTrip.

Lemma jsval_ind' (P : jsval -> Prop) (HU : P JUndef) (HN : P JNull)
  (HB : forall b, P (JBool b)) (HNm : forall s, P (JNum s)) (HS : forall s, P (JStr s))
  (HA : forall l, Forall P l -> P (JArr l))
  (HO : forall fs, Forall (fun kv => P (snd kv)) fs -> P (JObj fs)) :
  forall v, P v.
Proof.
  fix F 1. intros [| |b|s|s|l|fs]; [exact HU | exact HN | apply HB | apply HNm | apply HS | |].
  - apply HA. revert l. fix G 1. intros [|x l]; constructor; [apply F | apply G].
  - apply HO. revert fs. fix G 1. intros [|[k x] fs]; constructor; [apply F | apply G].
Qed.

Lemma plain_arr (l : list jsval) : plain_json (JArr l) = forallb plain_json l.
Proof. reflexivity. Qed.
Lemma plain_obj (fs : list (jstr * jsval)) :
  plain_json (JObj fs) = forallb (fun kv => forallb unit16 (fst kv) && plain_json (snd kv)) fs.
Proof. reflexivity. Qed.

Lemma plain_num (lit : jstr) :
  plain_json (JNum lit) = true -> number_literal lit = true /\ stringify (JNum lit) = lit.
Proof.
  cbn [plain_json stringify]. unfold canonical_number. intros H.
  apply andb_prop in H as [H1 H2]. split; [exact H1|].
  destruct (list_eq_dec Z.eq_dec (json_number lit) lit); [assumption|discriminate].
Qed.

Lemma stringify_arr (l : list jsval) :
  stringify (JArr l) = 0x5B :: join_comma (map stringify l) ++ [0x5D].
Proof. reflexivity. Qed.

Lemma stringify_obj (fs : list (jstr * jsval)) :
  Forall (fun kv => snd kv <> JUndef) fs ->
  stringify (JObj fs) =
  0x7B :: join_comma (map (fun kv => quote (fst kv) ++ 0x3A :: stringify (snd kv)) fs) ++ [0x7D].
Proof.
  intros H. cbn [stringify]. do 3 f_equal.
  induction H as [|[k x] fs Hx H IH]; [reflexivity|]. cbn [map fst snd] in *.
  rewrite <- IH. destruct x; [congruence|..]; reflexivity.
Qed.

(** *** Number literals *)

Local Abbreviation delim r :=
  (r = [] \/ exists d t, r = d :: t /\ (d = 0x2C \/ d = 0x5D \/ d = 0x7D)).

Ltac delim_cases H :=
  let d := fresh "d" in let t := fresh "t" in let Hd := fresh "Hd" in
  destruct H as [->|(d & t & -> & Hd)];
  [| destruct Hd as [->|[->| ->]]].

Lemma skip_digits_app (s r : jstr) : delim r -> skip_digits (s ++ r) = skip_digits s ++ r.
Proof.
  intros Hr. induction s as [|c s IH].
  - delim_cases Hr; reflexivity.
  - cbn [app skip_digits]. destruct (is_digit c); [exact IH | reflexivity].
Qed.

Lemma digits1_app (s y r : jstr) : delim r -> digits1 s = Some y -> digits1 (s ++ r) = Some (y ++ r).
Proof.
  intros Hr. destruct s as [|c s]; [discriminate|]. cbn [app digits1].
  destruct (is_digit c); [|discriminate]. intros [= <-]. rewrite skip_digits_app by exact Hr.
  reflexivity.
Qed.

Lemma p_int_app (s y r : jstr) : delim r -> p_int s = Some y -> p_int (s ++ r) = Some (y ++ r).
Proof.
  intros Hr. destruct s as [|c s]; [discriminate|]. cbn [app p_int].
  destruct (c =? 0x30); [intros [= <-]; reflexivity|].
  destruct (is_digit c); [|discriminate]. intros [= <-]. rewrite skip_digits_app by exact Hr.
  reflexivity.
Qed.

Lemma p_frac_app (s y r : jstr) : delim r -> p_frac s = Some y -> p_frac (s ++ r) = Some (y ++ r).
Proof.
  intros Hr. destruct s as [|c s].
  - intros [= <-]. delim_cases Hr; reflexivity.
  - cbn [app p_frac]. destruct (c =? 0x2E); [apply digits1_app, Hr|].
    intros [= <-]. reflexivity.
Qed.

Lemma p_exp_app (s y r : jstr) : delim r -> p_exp s = Some y -> p_exp (s ++ r) = Some (y ++ r).
Proof.
  intros Hr. destruct s as [|c s].
  - intros [= <-]. delim_cases Hr; reflexivity.
  - cbn [app p_exp]. destruct ((c =? 0x65) || (c =? 0x45)); [|intros [= <-]; reflexivity].
    destruct s as [|d u]; [discriminate|]. cbn [app].
    destruct ((d =? 0x2B) || (d =? 0x2D)); [apply digits1_app, Hr|].
    change (d :: u ++ r) with ((d :: u) ++ r). apply digits1_app, Hr.
Qed.

Lemma p_number_app (lit r : jstr) :
  number_literal lit = true -> delim r -> p_number (lit ++ r) = Some (JNum lit, r).
Proof.
  intros Hl Hr. unfold number_literal in Hl.
  destruct (p_number lit) as [[v [|x rest]]|] eqn:E; try discriminate. clear Hl.
  destruct lit as [|c0 lit']; [discriminate|]. unfold p_number in *.
  assert (Ho : opt_char 0x2D ((c0 :: lit') ++ r) = opt_char 0x2D (c0 :: lit') ++ r).
  { cbn [app opt_char]. destruct (c0 =? 0x2D); reflexivity. }
  rewrite Ho.
  destruct (p_int (opt_char 0x2D (c0 :: lit'))) as [r1|] eqn:E1; [|discriminate].
  rewrite (p_int_app _ _ _ Hr E1).
  destruct (p_frac r1) as [r2|] eqn:E2; [|discriminate].
  rewrite (p_frac_app _ _ _ Hr E2).
  destruct (p_exp r2) as [r3|] eqn:E3; [|discriminate].
  rewrite (p_exp_app _ _ _ Hr E3). injection E as <- ->.
  rewrite app_nil_l, length_app, Nat.add_sub, firstn_app, firstn_all, Nat.sub_diag.
  rewrite app_nil_r. reflexivity.
Qed.

(** *** Characters of the written text *)

Local Abbreviation ascii_prefix s y :=
  (exists pre, s = pre ++ y /\ Forall (fun u => 0 <= u < 0x80) pre).

Lemma ap_refl (s : jstr) : ascii_prefix s s.
Proof. exists []. split; [reflexivity | constructor]. Qed.

Lemma ap_cons (c : Z) (s y : jstr) : 0 <= c < 0x80 -> ascii_prefix s y -> ascii_prefix (c :: s) y.
Proof. intros Hc (pre & -> & H). exists (c :: pre). split; [reflexivity | constructor; assumption]. Qed.

Lemma ap_trans (s y z : jstr) : ascii_prefix s y -> ascii_prefix y z -> ascii_prefix s z.
Proof.
  intros (p1 & -> & H1) (p2 & -> & H2). exists (p1 ++ p2).
  split; [apply app_assoc | apply Forall_app; split; assumption].
Qed.

Lemma is_digit_range (c : Z) : is_digit c = true -> 0x30 <= c <= 0x39.
Proof. unfold is_digit, in_range. rewrite andb_true_iff, !Z.leb_le. tauto. Qed.

Lemma skip_digits_ap (s : jstr) : ascii_prefix s (skip_digits s).
Proof.
  induction s as [|c s IH]; [apply ap_refl|]. cbn [skip_digits].
  destruct (is_digit c) eqn:E; [|apply ap_refl].
  apply ap_cons; [apply is_digit_range in E; lia | exact IH].
Qed.

Lemma digits1_ap (s y : jstr) : digits1 s = Some y -> ascii_prefix s y.
Proof.
  destruct s as [|c s]; [discriminate|]. cbn [digits1].
  destruct (is_digit c) eqn:E; [|discriminate]. intros [= <-].
  apply ap_cons; [apply is_digit_range in E; lia | apply skip_digits_ap].
Qed.

Lemma p_int_ap (s y : jstr) : p_int s = Some y -> ascii_prefix s y.
Proof.
  destruct s as [|c s]; [discriminate|]. cbn [p_int].
  destruct (c =? 0x30) eqn:E0.
  - intros [= <-]. apply Z.eqb_eq in E0. apply ap_cons; [lia | apply ap_refl].
  - destruct (is_digit c) eqn:E; [|discriminate]. intros [= <-].
    apply ap_cons; [apply is_digit_range in E; lia | apply skip_digits_ap].
Qed.

Lemma p_frac_ap (s y : jstr) : p_frac s = Some y -> ascii_prefix s y.
Proof.
  destruct s as [|c s]; [intros [= <-]; apply ap_refl|]. cbn [p_frac].
  destruct (c =? 0x2E) eqn:E; [|intros [= <-]; apply ap_refl].
  intros H. apply Z.eqb_eq in E. apply ap_cons; [lia | apply digits1_ap, H].
Qed.

Lemma p_exp_ap (s y : jstr) : p_exp s = Some y -> ascii_prefix s y.
Proof.
  destruct s as [|c s]; [intros [= <-]; apply ap_refl|]. cbn [p_exp].
  destruct ((c =? 0x65) || (c =? 0x45)) eqn:E; [|intros [= <-]; apply ap_refl].
  assert (Hc : 0 <= c < 0x80)
    by (apply orb_true_iff in E; destruct E as [E|E]; apply Z.eqb_eq in E; lia).
  intros H. apply ap_cons; [exact Hc|].
  destruct s as [|d u]; [discriminate|].
  destruct ((d =? 0x2B) || (d =? 0x2D)) eqn:Ed; [|apply digits1_ap, H].
  apply ap_cons; [|apply digits1_ap, H].
  apply orb_true_iff in Ed; destruct Ed as [Ed|Ed]; apply Z.eqb_eq in Ed; lia.
Qed.

(** A number literal is ASCII and starts with a minus sign or a digit. *)
Lemma number_literal_shape (lit : jstr) :
  number_literal lit = true ->
  Forall (fun u => 0 <= u < 0x80) lit /\
  exists c t, lit = c :: t /\ (c = 0x2D \/ 0x30 <= c <= 0x39).
Proof.
  unfold number_literal, p_number.
  destruct (p_int (opt_char 0x2D lit)) as [r1|] eqn:E1; [|discriminate].
  destruct (p_frac r1) as [r2|] eqn:E2; [|discriminate].
  destruct (p_exp r2) as [r3|] eqn:E3; [|discriminate].
  destruct r3; [|discriminate]. intros _.
  destruct lit as [|c t]; [discriminate|].
  assert (Ho : ascii_prefix (c :: t) (opt_char 0x2D (c :: t)) /\
               (c = 0x2D \/ 0x30 <= c <= 0x39)).
  { cbn [opt_char] in *. destruct (c =? 0x2D) eqn:Ec.
    - apply Z.eqb_eq in Ec. split; [apply ap_cons; [lia | apply ap_refl] | left; exact Ec].
    - split; [apply ap_refl|]. right. cbn [p_int] in E1.
      destruct (c =? 0x30) eqn:E0; [apply Z.eqb_eq in E0; lia|].
      destruct (is_digit c) eqn:Ed; [apply is_digit_range, Ed | discriminate]. }
  destruct Ho as [Ho Hc]. split; [|exists c, t; split; [reflexivity | exact Hc]].
  destruct (ap_trans _ _ _ Ho (ap_trans _ _ _ (p_int_ap _ _ E1)
              (ap_trans _ _ _ (p_frac_ap _ _ E2) (p_exp_ap _ _ E3)))) as (pre & Ep & Hp).
  rewrite Ep, app_nil_r. exact Hp.
Qed.

(** [good a]: [a] is made of 16-bit units, and [toWellFormed] leaves it
    alone whatever follows it. *)
Local Abbreviation good a :=
  ((forall t, toWellFormed (a ++ t) = a ++ toWellFormed t) /\
   Forall (fun u => 0 <= u <= 0xFFFF) a).

Lemma good_nil : good [].
Proof. split; [reflexivity | constructor]. Qed.

Lemma good_app (a b : jstr) : good a -> good b -> good (a ++ b).
Proof.
  intros [Ca Fa] [Cb Fb]. split.
  - intros t. rewrite <- app_assoc, Ca, Cb, app_assoc. reflexivity.
  - apply Forall_app. split; assumption.
Qed.

Lemma good_unit (u : Z) :
  0 <= u <= 0xFFFF -> is_high_surrogate u = false -> is_low_surrogate u = false -> good [u].
Proof.
  intros Hu Hh Hl. split; [|repeat constructor; lia].
  intros t. cbn [app toWellFormed]. rewrite Hh, Hl. reflexivity.
Qed.

Lemma good_ascii (a : jstr) : Forall (fun u => 0 <= u < 0x80) a -> good a.
Proof.
  induction 1 as [|u a Hu Ha IH]; [apply good_nil|].
  apply (good_app [u] a); [|exact IH].
  apply good_unit; [lia| |]; unfold is_high_surrogate, is_low_surrogate;
    apply andb_false_iff; left; apply Z.leb_gt; lia.
Qed.

Lemma good_pair (u v : Z) :
  is_high_surrogate u = true -> is_low_surrogate v = true -> good [u; v].
Proof.
  intros Hh Hl. split.
  - intros t. cbn [app toWellFormed]. rewrite Hh, Hl. reflexivity.
  - unfold is_high_surrogate, is_low_surrogate in *.
    apply andb_prop in Hh, Hl. rewrite !Z.leb_le in Hh, Hl. repeat constructor; lia.
Qed.

Lemma hex_nibble_range (x : Z) :
  0 <= Z.land x 15 < 16 /\ 0 <= hex_digit (Z.land x 15) < 0x80.
Proof.
  change 15 with (Z.ones 4). rewrite Z.land_ones by lia.
  assert (H := Z.mod_pos_bound x (2 ^ 4) ltac:(lia)). change (2 ^ 4) with 16 in *.
  unfold hex_digit. destruct (x mod 16 <? 10); lia.
Qed.

Lemma hex4_ascii (u : Z) : Forall (fun c => 0 <= c < 0x80) (hex4 u).
Proof.
  unfold hex4. repeat constructor; apply hex_nibble_range.
Qed.

Lemma good_quote_unit (u : Z) : 0 <= u <= 0xFFFF -> good (quote_unit u).
Proof.
  intros Hu. unfold quote_unit.
  repeat match goal with
  | |- good (if ?b then _ else _) => destruct b eqn:?
  end;
  try (apply good_ascii; repeat constructor; lia).
  - apply good_ascii. constructor; [lia|]. constructor; [lia|]. apply hex4_ascii.
  - repeat match goal with H : (_ || _) = false |- _ => apply orb_false_iff in H; destruct H end.
    apply good_unit; assumption.
Qed.

Lemma quote_units_cons2 (u v : Z) (t : jstr) :
  quote_units (u :: v :: t) =
  if is_high_surrogate u && is_low_surrogate v then u :: v :: quote_units t
  else quote_unit u ++ quote_units (v :: t).
Proof. reflexivity. Qed.

Lemma good_quote_units (s : jstr) : Forall (fun u => 0 <= u <= 0xFFFF) s -> good (quote_units s).
Proof.
  remember (length s) as n eqn:En. assert (Hn : (length s <= n)%nat) by lia. clear En.
  revert s Hn. induction n as [|n IH]; intros s Hn Hs.
  - destruct s; [apply good_nil | simpl in Hn; lia].
  - destruct s as [|u [|v t]]; [apply good_nil | |].
    + inversion Hs; subst. cbn [quote_units]. apply good_quote_unit. assumption.
    + inversion Hs as [|? ? Hu Ht]; subst. simpl in Hn. rewrite quote_units_cons2.
      inversion Ht as [|? ? Hv Ht']; subst.
      destruct (is_high_surrogate u && is_low_surrogate v) eqn:E.
      * apply andb_prop in E. destruct E as [Eh El].
        apply (good_app [u; v]); [apply good_pair; assumption | apply IH; [lia | exact Ht']].
      * apply good_app; [apply good_quote_unit, Hu | apply IH; [simpl; lia | exact Ht]].
Qed.

Lemma unit16_forall (s : jstr) :
  forallb unit16 s = true -> Forall (fun u => 0 <= u <= 0xFFFF) s.
Proof.
  intros H. apply Forall_forall. intros u Hu. eapply forallb_forall in H; [|exact Hu].
  unfold unit16 in H. apply andb_prop in H. rewrite !Z.leb_le in H. exact H.
Qed.

Lemma good_quote (s : jstr) : Forall (fun u => 0 <= u <= 0xFFFF) s -> good (quote s).
Proof.
  intros Hs. unfold quote. change (0x22 :: ?a) with ([0x22] ++ a).
  apply good_app; [apply good_ascii; repeat constructor; lia|].
  apply good_app; [apply good_quote_units, Hs | apply good_ascii; repeat constructor; lia].
Qed.

Lemma good_join (ys : list jstr) : Forall (fun y => good y) ys -> good (join_comma ys).
Proof.
  induction 1 as [|y ys Hy Hys IH]; [apply good_nil|].
  destruct ys as [|y' ys]; [exact Hy|].
  change (join_comma (y :: y' :: ys)) with (y ++ [0x2C] ++ join_comma (y' :: ys)).
  apply good_app; [exact Hy|]. apply good_app; [apply good_ascii; repeat constructor; lia | exact IH].
Qed.

Lemma plain_not_undef (v : jsval) : plain_json v = true -> v <> JUndef.
Proof. intros H ->. discriminate. Qed.

Lemma plain_fields (fs : list (jstr * jsval)) :
  plain_json (JObj fs) = true ->
  Forall (fun kv => Forall (fun u => 0 <= u <= 0xFFFF) (fst kv) /\ plain_json (snd kv) = true) fs.
Proof.
  rewrite plain_obj. intros H. apply Forall_forall. intros kv Hkv.
  eapply forallb_forall in H; [|exact Hkv]. apply andb_prop in H. destruct H as [Hk Hv].
  split; [apply unit16_forall, Hk | exact Hv].
Qed.

Lemma plain_fields_defined (fs : list (jstr * jsval)) :
  plain_json (JObj fs) = true -> Forall (fun kv => snd kv <> JUndef) fs.
Proof.
  intros H. eapply Forall_impl; [|exact (plain_fields fs H)].
  intros kv [_ Hv]. apply plain_not_undef, Hv.
Qed.

Lemma plain_elems (l : list jsval) :
  plain_json (JArr l) = true -> Forall (fun x => plain_json x = true) l.
Proof. rewrite plain_arr. intros H. apply Forall_forall, forallb_forall, H. Qed.

Lemma good_stringify (v : jsval) : plain_json v = true -> good (stringify v).
Proof.
  induction v as [| | b | lit | s | l IH | fs IH] using jsval_ind'; intros Hp.
  - discriminate.
  - apply good_ascii. simpl. repeat constructor; lia.
  - apply good_ascii. destruct b; simpl; repeat constructor; lia.
  - destruct (plain_num lit Hp) as [Hn E]. rewrite E.
    apply good_ascii, number_literal_shape, Hn.
  - apply good_quote, unit16_forall, Hp.
  - rewrite stringify_arr. change (0x5B :: ?a) with ([0x5B] ++ a).
    apply good_app; [apply good_ascii; repeat constructor; lia|].
    apply good_app; [|apply good_ascii; repeat constructor; lia].
    apply good_join. apply plain_elems in Hp.
    induction IH as [|x l Hx IH' IHl]; [constructor|].
    inversion Hp; subst. constructor; [apply Hx; assumption | apply IHl; assumption].
  - rewrite stringify_obj by (apply plain_fields_defined, Hp).
    change (0x7B :: ?a) with ([0x7B] ++ a).
    apply good_app; [apply good_ascii; repeat constructor; lia|].
    apply good_app; [|apply good_ascii; repeat constructor; lia].
    apply good_join. apply plain_fields in Hp.
    induction IH as [|[k x] fs Hx IH' IHl]; [constructor|].
    inversion Hp as [|? ? [Hk Hxp] Hp']; subst. constructor; [|apply IHl; assumption].
    apply good_app; [apply good_quote, Hk|].
    change (0x3A :: ?a) with ([0x3A] ++ a).
    apply good_app; [apply good_ascii; repeat constructor; lia | apply Hx, Hxp].
Qed.

(** *** String literals *)

Lemma hex_val_digit (d : Z) : 0 <= d < 16 -> hex_val (hex_digit d) = Some d.
Proof.
  intros Hd. unfold hex_digit, hex_val, is_digit, in_range.
  destruct (Z.ltb_spec d 10);
  repeat match goal with |- context [?x <=? ?y] => destruct (Z.leb_spec x y) end;
  cbn [andb]; try lia; f_equal; lia.
Qed.

Lemma unit_nibbles (u : Z) :
  0 <= u <= 0xFFFF ->
  Z.land (Z.shiftr u 12) 15 * 4096 + Z.land (Z.shiftr u 8) 15 * 256 +
  Z.land (Z.shiftr u 4) 15 * 16 + Z.land u 15 = u.
Proof.
  intros Hu. rewrite !Z.shiftr_div_pow2 by lia. change 15 with (Z.ones 4).
  rewrite !Z.land_ones by lia.
  change (2 ^ 12) with 4096. change (2 ^ 8) with 256. change (2 ^ 4) with 16.
  assert (Hs : (u / 4096) mod 16 = u / 4096)
    by (apply Z.mod_small; split; [apply Z.div_pos; lia | apply Z.div_lt_upper_bound; lia]).
  rewrite Hs.
  assert (A : u / 256 = u / 16 / 16) by (rewrite Z.div_div by lia; reflexivity).
  assert (B : u / 4096 = u / 16 / 16 / 16) by (rewrite !Z.div_div by lia; reflexivity).
  rewrite A, B.
  pose proof (Z.div_mod u 16 ltac:(lia)) as D1.
  pose proof (Z.div_mod (u / 16) 16 ltac:(lia)) as D2.
  pose proof (Z.div_mod (u / 16 / 16) 16 ltac:(lia)) as D3.
  set (q1 := u / 16) in *. set (q2 := q1 / 16) in *. set (q3 := q2 / 16) in *.
  set (r0 := u mod 16) in *. set (r1 := q1 mod 16) in *. set (r2 := q2 mod 16) in *.
  clearbody q1 q2 q3 r0 r1 r2. lia.
Qed.

Lemma body_cons (c : Z) (t : jstr) :
  c <> 0x22 -> c <> 0x5C -> 0x20 <= c ->
  p_string_body (c :: t) =
  match p_string_body t with Some (str, r) => Some (c :: str, r) | None => None end.
Proof.
  intros H1 H2 H3. cbn [p_string_body].
  rewrite (proj2 (Z.eqb_neq _ _) H1), (proj2 (Z.eqb_neq _ _) H2).
  rewrite (proj2 (Z.ltb_ge _ _)) by lia. reflexivity.
Qed.

Lemma quote_unit_body (u : Z) (rest : jstr) :
  0 <= u <= 0xFFFF ->
  p_string_body (quote_unit u ++ rest) =
  match p_string_body rest with Some (str, r) => Some (u :: str, r) | None => None end.
Proof.
  intros Hu. unfold quote_unit.
  repeat match goal with
  | |- context [if ?x =? ?y then _ else _] =>
      let E := fresh "E" in
      destruct (x =? y) eqn:E; [apply Z.eqb_eq in E; subst; reflexivity|]
  end.
  repeat match goal with H : (_ =? _) = false |- _ => apply Z.eqb_neq in H end.
  destruct ((u <? 0x20) || is_high_surrogate u || is_low_surrogate u) eqn:Es.
  - unfold hex4. cbn [app p_string_body].
    destruct (hex_nibble_range (Z.shiftr u 12)) as [R1 _].
    destruct (hex_nibble_range (Z.shiftr u 8)) as [R2 _].
    destruct (hex_nibble_range (Z.shiftr u 4)) as [R3 _].
    destruct (hex_nibble_range u) as [R4 _].
    rewrite !hex_val_digit by assumption. cbn -[Z.shiftr Z.land Z.mul Z.add].
    rewrite unit_nibbles by exact Hu. reflexivity.
  - apply orb_false_iff in Es. destruct Es as [Es _]. apply orb_false_iff in Es.
    destruct Es as [Es _]. apply Z.ltb_ge in Es.
    cbn [app]. apply body_cons; assumption.
Qed.

Lemma quote_units_body (s r : jstr) :
  Forall (fun u => 0 <= u <= 0xFFFF) s ->
  p_string_body (quote_units s ++ 0x22 :: r) = Some (s, r).
Proof.
  remember (length s) as n eqn:En. assert (Hn : (length s <= n)%nat) by lia. clear En.
  revert s Hn. induction n as [|n IH]; intros s Hn Hs.
  - destruct s; [reflexivity | simpl in Hn; lia].
  - destruct s as [|u [|v t]]; [reflexivity | |].
    + inversion Hs; subst. cbn [quote_units].
      rewrite quote_unit_body by assumption. reflexivity.
    + inversion Hs as [|? ? Hu Ht]; subst. simpl in Hn. rewrite quote_units_cons2.
      inversion Ht as [|? ? Hv Ht']; subst.
      destruct (is_high_surrogate u && is_low_surrogate v) eqn:E.
      * apply andb_prop in E. destruct E as [Eh El].
        unfold is_high_surrogate, is_low_surrogate in Eh, El.
        apply andb_prop in Eh, El. rewrite !Z.leb_le in Eh, El.
        cbn [app]. rewrite body_cons by lia. rewrite body_cons by lia.
        rewrite IH by (auto; lia). reflexivity.
      * rewrite <- app_assoc, quote_unit_body by exact Hu.
        rewrite IH by (auto; simpl; lia). reflexivity.
Qed.

(** *** Reading back what [stringify] writes *)

Local Abbreviation member := (fun kv : jstr * jsval => quote (fst kv) ++ 0x3A :: stringify (snd kv)).

Ltac zfalse :=
  repeat match goal with
  | |- context [?x =? ?y] => rewrite (proj2 (Z.eqb_neq x y)) by lia
  end.

Lemma stringify_head (v : jsval) :
  plain_json v = true ->
  exists c t, stringify v = c :: t /\ is_ws c = false /\ c <> 0x5D.
Proof.
  intros Hp. destruct v as [| |b|lit|s|l|fs]; try discriminate.
  - exists 0x6E, (tl (js "null")). split; [reflexivity | split; [reflexivity | lia]].
  - destruct b; [exists 0x74, (tl (js "true")) | exists 0x66, (tl (js "false"))];
      (split; [reflexivity | split; [reflexivity | lia]]).
  - destruct (plain_num lit Hp) as [Hn E]. rewrite E.
    destruct (number_literal_shape lit Hn) as [_ (c & t & -> & Hc)].
    exists c, t. split; [reflexivity|]. split; [|lia].
    unfold is_ws. zfalse. reflexivity.
  - eexists _, _. split; [reflexivity | split; [reflexivity | lia]].
  - eexists _, _. split; [reflexivity | split; [reflexivity | lia]].
  - eexists _, _. split; [reflexivity | split; [reflexivity | lia]].
Qed.

Lemma skip_ws_stop (c : Z) (t : jstr) : is_ws c = false -> skip_ws (c :: t) = c :: t.
Proof. intros H. cbn [skip_ws]. rewrite H. reflexivity. Qed.

Lemma pv_arr (n : nat) (d : Z) (u : jstr) :
  is_ws d = false -> d <> 0x5D ->
  p_value (S n) (0x5B :: d :: u) =
  match p_elements n (d :: u) with Some (l, r) => Some (JArr l, r) | None => None end.
Proof.
  intros Hw Hd. cbn [p_value]. rewrite skip_ws_stop by reflexivity.
  rewrite skip_ws_stop by exact Hw. zfalse. reflexivity.
Qed.

Lemma pv_num (n : nat) (c : Z) (u : jstr) :
  c = 0x2D \/ 0x30 <= c <= 0x39 -> p_value (S n) (c :: u) = p_number (c :: u).
Proof.
  intros Hc. cbn [p_value].
  rewrite skip_ws_stop by (unfold is_ws; zfalse; reflexivity).
  zfalse. reflexivity.
Qed.

Lemma pv_str (n : nat) (u : jstr) :
  p_value (S n) (0x22 :: u) =
  match p_string_body u with Some (str, r) => Some (JStr str, r) | None => None end.
Proof. reflexivity. Qed.

Lemma pv_obj (n : nat) (u : jstr) :
  p_value (S n) (0x7B :: 0x22 :: u) =
  match p_members n (0x22 :: u) with Some (fs, r) => Some (JObj fs, r) | None => None end.
Proof. reflexivity. Qed.

Lemma quote_app (k rest : jstr) : quote k ++ rest = 0x22 :: quote_units k ++ 0x22 :: rest.
Proof. unfold quote. rewrite <- app_comm_cons, <- app_assoc. reflexivity. Qed.

Lemma delim_comma (t : jstr) : delim (0x2C :: t).
Proof. right. exists 0x2C, t. split; [reflexivity | left; reflexivity]. Qed.
Lemma delim_bracket (t : jstr) : delim (0x5D :: t).
Proof. right. exists 0x5D, t. split; [reflexivity | right; left; reflexivity]. Qed.
Lemma delim_brace (t : jstr) : delim (0x7D :: t).
Proof. right. exists 0x7D, t. split; [reflexivity | right; right; reflexivity]. Qed.

Lemma parse_stringify (n : nat) :
  (forall v r, plain_json v = true -> delim r -> (length (stringify v) <= n)%nat ->
     p_value n (stringify v ++ r) = Some (v, r)) /\
  (forall l r, l <> [] -> Forall (fun x => plain_json x = true) l ->
     (length (join_comma (map stringify l)) < n)%nat ->
     p_elements n (join_comma (map stringify l) ++ 0x5D :: r) = Some (l, r)) /\
  (forall fs r, fs <> [] ->
     Forall (fun kv => Forall (fun u => 0 <= u <= 0xFFFF) (fst kv) /\ plain_json (snd kv) = true) fs ->
     (length (join_comma (map member fs)) < n)%nat ->
     p_members n (join_comma (map member fs) ++ 0x7D :: r) = Some (fs, r)).
Proof.
  induction n as [|n (IHv & IHe & IHm)].
  - split; [|split].
    + intros v r Hp _ Hl. destruct (stringify_head v Hp) as (c & t & E & _).
      rewrite E in Hl. simpl in Hl. lia.
    + intros l r _ _ Hl. lia.
    + intros fs r _ _ Hl. lia.
  - split; [|split].
    + intros v r Hp Hr Hl. destruct v as [| |b|lit|s|l|fs].
      * discriminate.
      * reflexivity.
      * destruct b; reflexivity.
      * destruct (plain_num lit Hp) as [Hn E].
        destruct (number_literal_shape lit Hn) as [_ (c & t & Elit & Hc)].
        rewrite E. transitivity (p_number (lit ++ r)); [|apply p_number_app; assumption].
        rewrite Elit. apply pv_num, Hc.
      * cbn [stringify]. rewrite quote_app, pv_str, quote_units_body by (apply unit16_forall, Hp).
        reflexivity.
      * assert (Hx := plain_elems l Hp). rewrite stringify_arr in *.
        destruct l as [|x l']; [reflexivity|].
        inversion Hx as [|? ? Hx0 _]; subst.
        destruct (stringify_head x Hx0) as (c & t & Ex & Hw & Hd).
        assert (EJ : exists T, join_comma (map stringify (x :: l')) ++ 0x5D :: r = c :: T).
        { destruct l' as [|y l'']; cbn [map join_comma]; rewrite Ex; eexists; reflexivity. }
        destruct EJ as [T EJ].
        cbn [length] in Hl. rewrite length_app in Hl. cbn [length] in Hl.
        rewrite <- app_comm_cons, <- app_assoc. cbn [app].
        rewrite EJ, pv_arr by assumption. rewrite <- EJ, IHe by (congruence || assumption || lia).
        reflexivity.
      * assert (Hf := plain_fields fs Hp).
        rewrite stringify_obj in * by (apply plain_fields_defined, Hp).
        destruct fs as [|[k x] fs']; [reflexivity|].
        assert (EJ : exists T, join_comma (map member ((k, x) :: fs')) ++ 0x7D :: r = 0x22 :: T).
        { destruct fs' as [|kv fs'']; cbn [map join_comma fst snd]; rewrite quote_app;
            eexists; reflexivity. }
        destruct EJ as [T EJ].
        cbn [length] in Hl. rewrite length_app in Hl. cbn [length] in Hl.
        rewrite <- app_comm_cons, <- app_assoc. cbn [app].
        rewrite EJ, pv_obj, <- EJ, IHm by (congruence || assumption || lia).
        reflexivity.
    + intros l r Hne Hp Hl. destruct l as [|x l']; [congruence|].
      inversion Hp as [|? ? Hx Hp']; subst.
      destruct l' as [|y l''].
      * cbn [map join_comma] in *. cbn [p_elements].
        rewrite IHv by (assumption || apply delim_bracket || lia). reflexivity.
      * change (join_comma (map stringify (x :: y :: l''))) with
          (stringify x ++ 0x2C :: join_comma (map stringify (y :: l''))) in *.
        rewrite length_app in Hl. cbn [length] in Hl.
        rewrite <- app_assoc, <- app_comm_cons.
        remember (join_comma (map stringify (y :: l''))) as J eqn:EJ.
        cbn [p_elements]. rewrite IHv by (assumption || apply delim_comma || lia).
        simpl. subst J. rewrite IHe by (congruence || assumption || lia). reflexivity.
    + intros fs r Hne Hp Hl. destruct fs as [|[k x] fs']; [congruence|].
      inversion Hp as [|? ? [Hk Hx] Hp']; subst. cbn [fst snd] in Hk, Hx.
      destruct fs' as [|kv fs''].
      * change (join_comma (map member [(k, x)])) with (quote k ++ 0x3A :: stringify x) in *.
        rewrite length_app in Hl. cbn [length] in Hl.
        rewrite <- app_assoc, <- app_comm_cons, quote_app.
        remember (stringify x ++ 0x7D :: r) as X eqn:EX.
        cbn [p_members]. rewrite skip_ws_stop by reflexivity.
        cbv beta iota. rewrite Z.eqb_refl, quote_units_body by exact Hk.
        simpl. subst X. rewrite IHv by (assumption || apply delim_brace || lia).
        reflexivity.
      * change (join_comma (map member ((k, x) :: kv :: fs''))) with
          ((quote k ++ 0x3A :: stringify x) ++ 0x2C :: join_comma (map member (kv :: fs''))) in *.
        rewrite !length_app in Hl. cbn [length] in Hl. rewrite ?length_app in Hl. cbn [length] in Hl.
        remember (join_comma (map member (kv :: fs''))) as J eqn:EJ.
        rewrite <- !app_assoc, <- !app_comm_cons, quote_app.
        remember (stringify x ++ 0x2C :: J ++ 0x7D :: r) as X eqn:EX.
        cbn [p_members]. rewrite skip_ws_stop by reflexivity.
        cbv beta iota. rewrite Z.eqb_refl, quote_units_body by exact Hk.
        simpl. subst X. rewrite IHv by (assumption || apply delim_comma || lia).
        simpl. subst J. rewrite IHm by (congruence || assumption || lia). reflexivity.
Qed.

Lemma json_parse_stringify (v : jsval) : plain_json v = true -> JSON_parse (stringify v) = Some v.
Proof.
  intros Hp. unfold JSON_parse.
  destruct (parse_stringify (2 * length (stringify v) + 2)) as [Hv _].
  pose proof (Hv v [] Hp (or_introl eq_refl) ltac:(lia)) as E.
  rewrite app_nil_r in E. rewrite E. reflexivity.
Qed.

Lemma stringify_well_formed (v : jsval) :
  plain_json v = true ->
  toWellFormed (stringify v) = stringify v /\ Forall (fun u => 0 <= u <= 0xFFFF) (stringify v).
Proof.
  intros Hp. destruct (good_stringify v Hp) as [C F]. split; [|exact F].
  specialize (C []). rewrite !app_nil_r in C. exact C.
Qed.

Lemma stringify_nonempty (v : jsval) : plain_json v = true -> stringify v <> [].
Proof. intros Hp. destruct (stringify_head v Hp) as (c & t & -> & _). discriminate. Qed.

End JsonRoundTrip.


(** A record sent with [createBinaryMessage] and a [byte2] other than the
    telemetry flag decodes back to the same record, typed ['json'], when it
    holds no [undefined], each of its numbers is written as the literal
    [JSON.stringify] produces for its double (no [-0], [1.0] or [1e400])
    and its strings and keys are 16-bit code units (lone surrogates
    included). *)
Theorem record_frame_roundtrip (fs : list (jstr * jsval)) (b1 b2 b3 b4 : Z) :
  plain_json (JObj fs) = true -> b2 mod 256 <> 0x14 ->
  let m := parseBinaryMessage (createBinaryMessage (OutRecord fs) b1 b2 b3 b4) in
  payload m = JObj fs /\ payload_type_of m = Some json.
Proof.
  intros Hp Hb m. subst m. unfold createBinaryMessage. simpl map.
  destruct (JsonRoundTrip.stringify_well_formed _ Hp) as [Hw Hu].
  assert (Hne := utf8_encode_nonempty _ (JsonRoundTrip.stringify_nonempty _ Hp)).
  rewrite AsciiFrames.payload_classify, payload_type_of_classify by exact Hne.
  unfold classify. rewrite to_uint8_mod.
  replace (b2 mod 256 =? 0x14) with false by (symmetry; apply Z.eqb_neq; exact Hb).
  rewrite (utf8_roundtrip _ Hu), Hw, (JsonRoundTrip.json_parse_stringify _ Hp).
  split; reflexivity.
Qed.

Lemma record_frame_roundtrip_witness :
  plain_json (JObj [(js "pageId", JStr (js "17948")); (js "deviceId", JStr (js "89349"));
                    (js "dashboardPageId", JNull); (js "n", JNum (js "-1500"));
                    (js "w", JArr [JStr [0xD800]; JBool false])]) = true /\
  0x04 mod 256 <> 0x14 /\
  payload (parseBinaryMessage
    (createBinaryMessage
       (OutRecord [(js "pageId", JStr (js "17948")); (js "deviceId", JStr (js "89349"));
                   (js "dashboardPageId", JNull); (js "n", JNum (js "-1500"));
                   (js "w", JArr [JStr [0xD800]; JBool false])]) 0x01 0x04 0x01 7)) =
  JObj [(js "pageId", JStr (js "17948")); (js "deviceId", JStr (js "89349"));
        (js "dashboardPageId", JNull); (js "n", JNum (js "-1500"));
        (js "w", JArr [JStr [0xD800]; JBool false])].
Proof.
  assert (Hp : plain_json (JObj [(js "pageId", JStr (js "17948")); (js "deviceId", JStr (js "89349"));
                    (js "dashboardPageId", JNull); (js "n", JNum (js "-1500"));
                    (js "w", JArr [JStr [0xD800]; JBool false])]) = true) by reflexivity.
  split; [exact Hp|]. split; [discriminate|].
  apply (record_frame_roundtrip _ 0x01 0x04 0x01 7 Hp). discriminate.
Defined.
